(** * OfficesMap: validation, map centre, icons and popups of [app.py]

    A shallow embedding of the pure core of [src/app.py] together with the
    properties its specification states about it.

    - Python values are the inductive [pyval] (what [yaml.safe_load] yields).
    - A record is a [gmap string pyval]; records live in a [heap] keyed by
      object identity, because [validate_records] writes the coerced
      coordinates back into the very dict objects it was handed.
    - Exceptions are the error side of [res].
    - Floats are IEEE-754 binary64 values ([spec_float], 53 bits of
      precision, [emax = 1024]) with the round-to-nearest-even operations of
      [SpecFloat]. *)

From Stdlib Require Import ZArith Lia Ascii String List.
From Stdlib Require Import Floats.SpecFloat.
From stdpp Require Import base option list gmap strings pretty.

Open Scope Z_scope.

(** ** Exceptions and results *)

Inductive exn : Type :=
| ValueError
| TypeError
| KeyError
| OverflowError
| ZeroDivisionError.

Inductive res (A : Type) : Type :=
| Ret (a : A)
| Raise (e : exn).

Arguments Ret {A} a.
Arguments Raise {A} e.

Definition bind {A B : Type} (m : res A) (k : A -> res B) : res B :=
  match m with
  | Ret a => k a
  | Raise e => Raise e
  end.

Declare Scope res_scope.
Delimit Scope res_scope with res.
Notation "'do' x <- m ; k" := (bind m (fun x => k))
  (at level 10, x name, m at level 100, k at level 200) : res_scope.
Open Scope res_scope.

Definition returns {A : Type} (m : res A) : bool :=
  match m with Ret _ => true | Raise _ => false end.

(** ** Binary64 floats *)

Module PyFloat.

Definition prec : Z := 53.
Definition emax : Z := 1024.

Abbreviation float := spec_float.

Definition fadd : float -> float -> float := SFadd prec emax.
Definition fsub : float -> float -> float := SFsub prec emax.
Definition fdiv : float -> float -> float := SFdiv prec emax.
Definition fabs : float -> float := SFabs.

Definition pos_zero : float := S754_zero false.
Definition pos_inf : float := S754_infinity false.

(** The nearest double of an integer; an infinity when it is out of range. *)
Definition round_Z (z : Z) : float :=
  match z with
  | Z0 => pos_zero
  | Zpos p => binary_normalize prec emax (Zpos p) 0 false
  | Zneg p => SFopp (binary_normalize prec emax (Zpos p) 0 false)
  end.

(** The nearest double of the rational [m / d] for [d > 0]. *)
Definition round_ratio (m : Z) (d : positive) : float :=
  match m with
  | Z0 => pos_zero
  | Zpos p => fdiv (S754_finite false p 0) (S754_finite false d 0)
  | Zneg p => fdiv (S754_finite true p 0) (S754_finite false d 0)
  end.

Definition is_nan (f : float) : bool :=
  match f with S754_nan => true | _ => false end.

Definition is_inf (f : float) : bool :=
  match f with S754_infinity _ => true | _ => false end.

Definition is_finite (f : float) : bool :=
  match f with
  | S754_zero _ | S754_finite _ _ _ => true
  | S754_infinity _ | S754_nan => false
  end.

Definition is_zero (f : float) : bool :=
  match f with S754_zero _ => true | _ => false end.

(** [fabs a >= fabs b] as C evaluates it: false when either side is NaN. *)
Definition abs_ge (a b : float) : bool :=
  match SFcompare (fabs a) (fabs b) with
  | Some Gt | Some Eq => true
  | _ => false
  end.

End PyFloat.

Import PyFloat.

(** ** Strings

    A Python [str] is modelled by its UTF-8 bytes.  Every character the code
    below looks for (["?"], ["."], ASCII letters and digits, ["_"], ASCII
    white space) is a single byte, and no byte of a multi-byte sequence
    collides with one of them.  [lower] folds ASCII letters only: no other
    character lowers to one of the letters of the image suffixes, so the
    suffix test of [_is_direct_image] is not affected.  [float] reads ASCII
    digits and white space only; the other Unicode digits and spaces that
    CPython also accepts are read as malformed here. *)

Module PyStr.

Definition code (c : ascii) : N := N_of_ascii c.

Definition is_digit (c : ascii) : bool :=
  ((48 <=? code c) && (code c <=? 57))%N.

Definition is_space (c : ascii) : bool :=
  ((code c =? 32) || ((9 <=? code c) && (code c <=? 13)))%N.

Definition is_upper (c : ascii) : bool :=
  ((65 <=? code c) && (code c <=? 90))%N.

Definition to_lower (c : ascii) : ascii :=
  if is_upper c then ascii_of_N (code c + 32) else c.

(** [s.lower()] *)
Fixpoint lower (s : string) : string :=
  match s with
  | EmptyString => EmptyString
  | String c t => String (to_lower c) (lower t)
  end.

(** [s.split(sep)] for a one-character separator. *)
Fixpoint split (sep : ascii) (s : string) : list string :=
  match s with
  | EmptyString => [EmptyString]
  | String c t =>
      if Ascii.eqb c sep then EmptyString :: split sep t
      else match split sep t with
           | w :: ws => String c w :: ws
           | [] => [String c EmptyString]
           end
  end.

(** [s.endswith(suffix)] *)
Fixpoint endswith (s suffix : string) : bool :=
  if String.eqb s suffix then true
  else match s with
       | EmptyString => false
       | String _ t => endswith t suffix
       end.

(** [s.endswith((x, y, ...))] *)
Definition endswith_any (s : string) (suffixes : list string) : bool :=
  existsb (endswith s) suffixes.

(** [sep.join(parts)] *)
Fixpoint join (sep : string) (parts : list string) : string :=
  match parts with
  | [] => EmptyString
  | [p] => p
  | p :: ps => p +:+ sep +:+ join sep ps
  end.

(** [str(n)] for an [int]. *)
Definition of_int (n : Z) : string := pretty n.

(** The double quote character, as a one-character string. *)
Definition dq : string := String (ascii_of_N 34) EmptyString.

(** The line feed, as a one-character string. *)
Definition nl : string := String (ascii_of_N 10) EmptyString.

(** [frag in s] *)
Definition contains (frag s : string) : Prop :=
  exists pre post : string, s = pre +:+ frag +:+ post.

End PyStr.

Import PyStr.

(** ** Python values *)

(** What [yaml.safe_load] builds: null, booleans, integers, floats, strings,
    sequences and mappings. *)
#[warnings="-register-all"] Inductive pyval : Type :=
| VNone
| VBool (b : bool)
| VInt (z : Z)
| VFloat (f : float)
| VStr (s : string)
| VList (l : list pyval)
| VDict (d : list (string * pyval)).

(** [bool(v)] *)
Definition truthy (v : pyval) : bool :=
  match v with
  | VNone => false
  | VBool b => b
  | VInt z => negb (z =? 0)
  | VFloat f => negb (is_zero f)
  | VStr s => negb (String.eqb s EmptyString)
  | VList l => match l with [] => false | _ => true end
  | VDict d => match d with [] => false | _ => true end
  end.

(** [a or b] *)
Definition py_or (a b : pyval) : pyval := if truthy a then a else b.

(** [isinstance(v, str)] *)
Definition is_str (v : pyval) : bool :=
  match v with VStr _ => true | _ => false end.

(** ** [float(v)] *)

Module FloatParse.

Fixpoint span_digits (s : list ascii) : list ascii * list ascii :=
  match s with
  | c :: t =>
      if is_digit c
      then let '(ds, r) := span_digits t in (c :: ds, r)
      else ([], s)
  | [] => ([], [])
  end.

Definition digits_value (ds : list ascii) : Z :=
  fold_left (fun acc c => 10 * acc + (Z.of_N (code c) - 48)) ds 0.

Fixpoint lstrip (s : list ascii) : list ascii :=
  match s with
  | c :: t => if is_space c then lstrip t else s
  | [] => []
  end.

Definition strip (s : list ascii) : list ascii :=
  rev (lstrip (rev (lstrip s))).

Definition is_underscore (c : ascii) : bool := Ascii.eqb c "_".

(** An underscore is accepted only between two digits. *)
Fixpoint underscores_ok (prev : ascii) (s : list ascii) : bool :=
  match s with
  | [] => negb (is_underscore prev)
  | c :: t =>
      (if is_underscore c then is_digit prev
       else if is_underscore prev then is_digit c else true)
      && underscores_ok c t
  end.

Definition take_sign (s : list ascii) : bool * list ascii :=
  match s with
  | c :: t =>
      if Ascii.eqb c "-" then (true, t)
      else if Ascii.eqb c "+" then (false, t)
      else (false, s)
  | [] => (false, [])
  end.

(** [digits [. digits] [(e|E) [sign] digits]], at least one digit in the
    mantissa, nothing left over: the mantissa as an integer and the power
    of ten that scales it. *)
Definition parse_decimal (s : list ascii) : option (Z * Z) :=
  let '(ip, r1) := span_digits s in
  let '(fp, r2) :=
    match r1 with
    | c :: t => if Ascii.eqb c "." then span_digits t else ([], r1)
    | [] => ([], r1)
    end in
  match ip ++ fp with
  | [] => None
  | _ :: _ =>
      let m := digits_value (ip ++ fp) in
      let scale := - Z.of_nat (length fp) in
      match r2 with
      | [] => Some (m, scale)
      | c :: t =>
          if Ascii.eqb (to_lower c) "e" then
            let '(neg, t') := take_sign t in
            match span_digits t' with
            | ((_ :: _) as ds, []) =>
                let x := digits_value ds in
                Some (m, scale + (if neg then - x else x))
            | _ => None
            end
          else None
      end
  end.

(** The correctly rounded double of [m * 10^e] for [m >= 0]. *)
Definition decimal_value (m e : Z) : float :=
  if 0 <=? e then round_Z (m * 10 ^ e)
  else round_ratio m (Z.to_pos (10 ^ (- e))).

Definition parse_special (s : list ascii) : option float :=
  let w := string_of_list_ascii (map to_lower s) in
  if String.eqb w "inf" || String.eqb w "infinity" then Some pos_inf
  else if String.eqb w "nan" then Some S754_nan
  else None.

Definition parse_unsigned (s : list ascii) : option float :=
  match parse_decimal s with
  | Some (m, e) => Some (decimal_value m e)
  | None => parse_special s
  end.

(** [float(s)] for a string; [None] stands for [ValueError]. *)
Definition float_of_string (s : string) : option float :=
  let raw := list_ascii_of_string s in
  if underscores_ok zero raw then
    let '(neg, body) :=
      take_sign (strip (List.filter (fun c => negb (is_underscore c)) raw)) in
    match parse_unsigned body with
    | Some f => Some (if neg then SFopp f else f)
    | None => None
    end
  else None.

End FloatParse.

Definition py_float (v : pyval) : res float :=
  match v with
  | VFloat f => Ret f
  | VInt z =>
      let f := round_Z z in
      if is_inf f then Raise OverflowError else Ret f
  | VBool b => Ret (round_Z (if b then 1 else 0))
  | VStr s =>
      match FloatParse.float_of_string s with
      | Some f => Ret f
      | None => Raise ValueError
      end
  | VNone | VList _ | VDict _ => Raise TypeError
  end.

(** ** [pd.isna] and the truth value of its result

    For a scalar, [pd.isna] answers with a [bool]: true for [None] and for a
    NaN float.  For a mapping it answers [False].  For a list it answers
    with the NumPy boolean mask of [np.asarray(v, dtype=object)], and the
    [or] of line 47 then asks that mask for its truth value, which NumPy
    gives only for a mask of exactly one element and otherwise refuses with
    [ValueError].  (NumPy before 2.2 answered an empty mask with [False] and
    a deprecation warning; nesting beyond NumPy's dimension limit is not
    modelled.) *)

Module Pandas.

(** [libmissing.checknull] on the values of [pyval]. *)
Definition checknull (v : pyval) : bool :=
  match v with
  | VNone => true
  | VFloat f => is_nan f
  | _ => false
  end.

Fixpoint common_prefix (a b : list nat) : list nat :=
  match a, b with
  | x :: a', y :: b' => if Nat.eqb x y then x :: common_prefix a' b' else []
  | _, _ => []
  end.

Definition common_shape (shapes : list (list nat)) : list nat :=
  match shapes with
  | [] => []
  | s :: ss => fold_left common_prefix ss s
  end.

(** The shape NumPy gives the object array built from [v]: nested lists
    become dimensions as deep as they stay rectangular. *)
Fixpoint np_shape (v : pyval) : list nat :=
  match v with
  | VList l => length l :: common_shape (map np_shape l)
  | _ => []
  end.

Definition np_size (v : pyval) : nat := fold_right Nat.mul 1%nat (np_shape v).

(** The only element of an array of size one. *)
Fixpoint np_item (v : pyval) : pyval :=
  match v with
  | VList [x] => np_item x
  | _ => v
  end.

(** [bool(pd.isna(v))] *)
Definition isna_truth (v : pyval) : res bool :=
  match v with
  | VList _ =>
      if Nat.eqb (np_size v) 1 then Ret (checknull (np_item v))
      else Raise ValueError
  | VDict _ => Ret false
  | _ => Ret (checknull v)
  end.

End Pandas.

Import Pandas.

(** ** Records and the heap of record objects *)

Abbreviation record := (gmap string pyval).

(** Object identity of a record. *)
Abbreviation loc := nat.

Abbreviation heap := (gmap loc record).

(** The record object behind a reference; a reference the heap does not know
    stands for an empty mapping. *)
Definition deref (h : heap) (l : loc) : record := default ∅ (h !! l).

(** [r[key] = v] on the object behind [l]. *)
Definition setitem (h : heap) (l : loc) (key : string) (v : pyval) : heap :=
  <[l := <[key := v]> (deref h l)]> h.

(** [r[key]] *)
Definition getitem (r : record) (key : string) : res pyval :=
  match r !! key with
  | Some v => Ret v
  | None => Raise KeyError
  end.

(** [r.get(key)] and [r.get(key, dflt)] *)
Definition dict_get (r : record) (key : string) (dflt : pyval) : pyval :=
  default dflt (r !! key).

(** [key in r] *)
Definition has_key (r : record) (key : string) : bool :=
  bool_decide (is_Some (r !! key)).

(** ** [validate_records] (lines 42-59) *)

Definition REQUIRED_FOR_MARKER : list string := ["latitude"; "longitude"; "city"].
Definition REQUIRED_FOR_CARD : list string := ["nome"; "region"; "CapcoHub"; "contact"].

(** Line 47: [field not in r or pd.isna(r.get(field))]. *)
Definition field_missing (r : record) (field : string) : res bool :=
  if negb (has_key r field) then Ret true
  else isna_truth (dict_get r field VNone).

(** Lines 46-48, the inner loop that collects the missing field names. *)
Fixpoint missing_loop (r : record) (fields missing : list string)
  : res (list string) :=
  match fields with
  | [] => Ret missing
  | field :: rest =>
      do b <- field_missing r field;
      missing_loop r rest (if b then missing ++ [field] else missing)
  end.

(** Lines 45-50. *)
Definition missing_fields (r : record) : res (list string) :=
  do missing <- missing_loop r (REQUIRED_FOR_MARKER ++ REQUIRED_FOR_CARD) [];
  Ret (if negb (has_key r "adress") && negb (has_key r "address")
       then missing ++ ["adress/address"] else missing).

Definition missing_message (i : Z) (missing : list string) : string :=
  "Item " +:+ of_int i +:+ ": faltando campos " +:+ join ", " missing.

Definition invalid_message (i : Z) : string :=
  "Item " +:+ of_int i +:+ ": latitude/longitude inválidas".

(** Line 55, the body of the [try]: the heap it leaves behind, and whether it
    ran to its end.  The first assignment stays done when the second
    coercion raises. *)
Definition coerce_coordinates (h : heap) (l : loc) : heap * res unit :=
  match (do v <- getitem (deref h l) "latitude"; py_float v) with
  | Raise e => (h, Raise e)
  | Ret lat =>
      let h1 := setitem h l "latitude" (VFloat lat) in
      match (do v <- getitem (deref h1 l) "longitude"; py_float v) with
      | Raise e => (h1, Raise e)
      | Ret lon => (setitem h1 l "longitude" (VFloat lon), Ret tt)
      end
  end.

(** The validator's variables: the heap, [errors] and [valids]. *)
Record vstate : Type := VState {
  st_heap : heap;
  st_errors : list string;
  st_valids : list loc;
}.

(** Lines 45-58, one turn of the loop for item number [i]. *)
Definition validate_step (i : Z) (l : loc) (st : vstate) : res vstate :=
  do missing <- missing_fields (deref (st_heap st) l);
  match missing with
  | _ :: _ =>
      Ret (VState (st_heap st)
                  (st_errors st ++ [missing_message i missing])
                  (st_valids st))
  | [] =>
      match coerce_coordinates (st_heap st) l with
      | (h', Raise _) =>
          Ret (VState h' (st_errors st ++ [invalid_message i]) (st_valids st))
      | (h', Ret _) =>
          Ret (VState h' (st_errors st) (st_valids st ++ [l]))
      end
  end.

(** Line 44, [for i, r in enumerate(recs, start=1)]. *)
Fixpoint validate_loop (i : Z) (recs : list loc) (st : vstate) : res vstate :=
  match recs with
  | [] => Ret st
  | l :: rest =>
      do st' <- validate_step i l st;
      validate_loop (i + 1) rest st'
  end.

(** The result is [(valids, errors)], together with the heap as the call
    leaves it. *)
Definition validate_records (h : heap) (recs : list loc)
  : res (list loc * list string * heap) :=
  do st <- validate_loop 1 recs (VState h [] []);
  Ret (st_valids st, st_errors st, st_heap st).

(** ** [compute_map_center] (lines 61-63) *)

Module Builtins.

(** The conversion of an [int] operand of a float operation. *)
Definition int_to_float (z : Z) : res float :=
  let f := round_Z z in
  if is_inf f then Raise OverflowError else Ret f.

Definition as_int (v : pyval) : option Z :=
  match v with
  | VInt z => Some z
  | VBool b => Some (if b then 1 else 0)
  | _ => None
  end.

(** [sum] once the running total is a float.  From CPython 3.12 on,
    float items are added with Neumaier's compensation [c], which is
    folded in at the end unless it is zero or not finite; before 3.12 the
    items are added one after the other.  [compensated] selects the
    former. *)
Fixpoint sum_floats (compensated : bool) (total c : float)
  (items : list pyval) : res pyval :=
  match items with
  | [] =>
      Ret (VFloat (if compensated && negb (is_zero c) && is_finite c
                   then fadd total c else total))
  | VFloat x :: rest =>
      if compensated then
        let t := fadd total x in
        let c' :=
          if abs_ge total x then fadd c (fadd (fsub total t) x)
          else fadd c (fadd (fsub x t) total) in
        sum_floats compensated t c' rest
      else sum_floats compensated (fadd total x) c rest
  | v :: rest =>
      match as_int v with
      | Some z =>
          do f <- int_to_float z;
          sum_floats compensated (fadd total f) c rest
      | None => Raise TypeError
      end
  end.

(** [sum] while the running total is an [int]; the first float item is
    added by the generic [int + float]. *)
Fixpoint sum_ints (compensated : bool) (total : Z) (items : list pyval)
  : res pyval :=
  match items with
  | [] => Ret (VInt total)
  | VFloat x :: rest =>
      do f <- int_to_float total;
      sum_floats compensated (fadd f x) pos_zero rest
  | v :: rest =>
      match as_int v with
      | Some z => sum_ints compensated (total + z) rest
      | None => Raise TypeError
      end
  end.

(** [sum(items)], which starts from the [int] 0. *)
Definition py_sum (compensated : bool) (items : list pyval) : res pyval :=
  sum_ints compensated 0 items.

(** [total / len(xs)] for a [total] that [sum] returned.  A length is
    below [2^63], so its conversion to a double cannot overflow. *)
Definition truediv_len (total : pyval) (n : nat) : res float :=
  match n with
  | O => Raise ZeroDivisionError
  | S _ =>
      match total with
      | VFloat f => Ret (fdiv f (round_Z (Z.of_nat n)))
      | VInt z =>
          let q := round_ratio z (Pos.of_nat n) in
          if is_inf q then Raise OverflowError else Ret q
      | _ => Raise TypeError
      end
  end.

End Builtins.

Import Builtins.

(** [[r[key] for r in recs]] *)
Fixpoint column (h : heap) (key : string) (recs : list loc) : res (list pyval) :=
  match recs with
  | [] => Ret []
  | l :: rest =>
      do v <- getitem (deref h l) key;
      do vs <- column h key rest;
      Ret (v :: vs)
  end.

Definition compute_map_center (compensated : bool) (h : heap) (recs : list loc)
  : res (float * float) :=
  do lats <- column h "latitude" recs;
  do lons <- column h "longitude" recs;
  do slat <- py_sum compensated lats;
  do clat <- truediv_len slat (length lats);
  do slon <- py_sum compensated lons;
  do clon <- truediv_len slon (length lons);
  Ret (clat, clon).

(** ** [_is_direct_image] (lines 65-68) *)

Definition IMAGE_SUFFIXES : list string :=
  [".png"; ".jpg"; ".jpeg"; ".gif"; ".webp"; ".bmp"; ".svg"].

Definition _is_direct_image (url : pyval) : bool :=
  if negb (truthy url) || negb (is_str url) then false
  else match url with
       | VStr s =>
           let url_l := hd EmptyString (split "?" (lower s)) in
           endswith_any url_l IMAGE_SUFFIXES
       | _ => false
       end.

(** ** Rendering: popups, icons and markers (lines 70-121 and 144-157) *)

Record DivIcon : Type := MkDivIcon {
  icon_html : string;
  icon_size : Z * Z;
  icon_anchor : Z * Z;
  icon_class_name : string;
}.

Record Popup : Type := MkPopup {
  popup_html : string;
  popup_max_width : Z;
  popup_min_width : Z;
}.

(** One coordinate under [folium.utilities.validate_location]: it must
    convert to a float, a [TypeError] or [ValueError] of the conversion
    becoming [ValueError], and the float must not be NaN. *)
Definition check_coordinate (coord : pyval) : res float :=
  match py_float coord with
  | Ret f => if is_nan f then Raise ValueError else Ret f
  | Raise OverflowError => Raise OverflowError
  | Raise _ => Raise ValueError
  end.

(** [validate_location([lat, lon])], which [folium.Map] and
    [folium.Marker] apply to their [location]: the location they keep is
    the pair of floats. *)
Definition validate_location (lat lon : pyval) : res (float * float) :=
  do a <- check_coordinate lat;
  do b <- check_coordinate lon;
  Ret (a, b).

Record Marker : Type := MkMarker {
  marker_location : float * float;
  marker_popup : Popup;
  marker_tooltip : string;
  marker_icon : DivIcon;
}.

Section Rendering.

(** [str(v)] of a float, a list or a mapping: CPython's [repr] of those is
    not modelled, the text is whatever this function says. *)
Variable str_compound : pyval -> string.

(** [str(v)], which is how an f-string field without a format renders. *)
Definition py_str (v : pyval) : string :=
  match v with
  | VNone => "None"
  | VBool true => "True"
  | VBool false => "False"
  | VInt z => of_int z
  | VStr s => s
  | VFloat _ | VList _ | VDict _ => str_compound v
  end.

(** [prefix + v + suffix] for string literals around a value. *)
Definition concat3 (prefix : string) (v : pyval) (suffix : string)
  : res string :=
  match v with
  | VStr s => Ret (prefix +:+ s +:+ suffix)
  | _ => Raise TypeError
  end.

Definition IMG_OPEN : string := "<img src=" +:+ dq.

Definition IMG_CLOSE : string :=
  dq +:+ " alt=" +:+ dq +:+ "office" +:+ dq +:+ " style=" +:+ dq +:+
  "max-width:100%; max-height:140px; display:block;" +:+ dq +:+ " />".

Definition NO_IMAGE : string :=
  "<div style=" +:+ dq +:+ "color:#999;" +:+ dq +:+
  ">Sem imagem (use URL direta de imagem)</div>".

(** The template of lines 80-97 around the image region ... *)
Definition popup_head : string :=
  nl +:+
  "    <div style=" +:+ dq +:+
  "font-family: Inter, system-ui, -apple-system, Segoe UI, Roboto, Arial; width: 320px;" +:+
  dq +:+ ">" +:+ nl +:+
  "      <div style=" +:+ dq +:+
  "border-radius: 16px; box-shadow: 0 8px 24px rgba(0,0,0,0.12); overflow: hidden; border: 1px solid #e6e6e6;" +:+
  dq +:+ ">" +:+ nl +:+
  "        <div style=" +:+ dq +:+
  "height: 140px; background:#f6f6f6; display:flex; align-items:center; justify-content:center;" +:+
  dq +:+ ">" +:+ nl +:+
  "          ".

(** ... and after it. *)
Definition popup_tail (city region nome address contact hub : pyval)
  : string :=
  nl +:+
  "        </div>" +:+ nl +:+
  "        <div style=" +:+ dq +:+ "padding: 12px 14px;" +:+ dq +:+ ">" +:+
  nl +:+
  "          <div style=" +:+ dq +:+
  "font-size: 14px; color:#6b7280; margin-bottom: 2px;" +:+ dq +:+ ">" +:+
  py_str city +:+ " · " +:+ py_str region +:+ "</div>" +:+ nl +:+
  "          <div style=" +:+ dq +:+
  "font-weight: 700; font-size: 16px; line-height: 1.2; margin-bottom: 8px;" +:+
  dq +:+ ">" +:+ py_str nome +:+ "</div>" +:+ nl +:+
  "          <div style=" +:+ dq +:+
  "font-size: 13px; color:#111827; margin-bottom: 6px;" +:+ dq +:+
  ">📍 " +:+ py_str address +:+ "</div>" +:+ nl +:+
  "          <div style=" +:+ dq +:+
  "font-size: 13px; color:#111827; margin-bottom: 6px;" +:+ dq +:+
  ">☎️ " +:+ py_str contact +:+ "</div>" +:+ nl +:+
  "          <div style=" +:+ dq +:+ "margin-top: 8px;" +:+ dq +:+ ">" +:+
  nl +:+
  "            <a href=" +:+ dq +:+ py_str hub +:+ dq +:+ " target=" +:+
  dq +:+ "_blank" +:+ dq +:+ " rel=" +:+ dq +:+ "noopener noreferrer" +:+
  dq +:+ " style=" +:+ dq +:+
  "text-decoration:none; font-size: 13px; font-weight:600; color:#2563eb;" +:+
  dq +:+ ">Abrir CapcoHub →</a>" +:+ nl +:+
  "          </div>" +:+ nl +:+
  "        </div>" +:+ nl +:+
  "      </div>" +:+ nl +:+
  "    </div>" +:+ nl +:+
  "    ".

Definition build_popup_html (r : record) : res string :=
  let city := dict_get r "city" (VStr EmptyString) in
  let nome := dict_get r "nome" (VStr EmptyString) in
  let region := dict_get r "region" (VStr EmptyString) in
  let hub := dict_get r "CapcoHub" (VStr EmptyString) in
  let address :=
    py_or (py_or (dict_get r "adress" VNone) (dict_get r "address" VNone))
          (VStr EmptyString) in
  let contact := dict_get r "contact" (VStr EmptyString) in
  let img_url := dict_get r "card_image_url" (VStr EmptyString) in
  let show_img := _is_direct_image img_url in
  do image <- (if show_img then concat3 IMG_OPEN img_url IMG_CLOSE
               else Ret NO_IMAGE);
  Ret (popup_head +:+ image +:+
       popup_tail city region nome address contact hub).

Definition build_round_logo_divicon (logo_url : pyval) (size : Z) : DivIcon :=
  let diameter := size in
  let radius := diameter `div` 2 in
  let html :=
    if truthy logo_url && _is_direct_image logo_url then
      nl +:+
      "        <div style=" +:+ dq +:+ "width:" +:+ of_int diameter +:+
      "px;height:" +:+ of_int diameter +:+ "px;border-radius:50%;" +:+ nl +:+
      "                    overflow:hidden; box-shadow:0 0 0 2px rgba(0,0,0,0.12), 0 6px 14px rgba(0,0,0,0.2);" +:+
      dq +:+ ">" +:+ nl +:+
      "          <img src=" +:+ dq +:+ py_str logo_url +:+ dq +:+ " style=" +:+
      dq +:+ "width:100%;height:100%;object-fit:cover;display:block;" +:+
      dq +:+ " />" +:+ nl +:+
      "        </div>" +:+ nl +:+
      "        "
    else
      nl +:+
      "        <div style=" +:+ dq +:+ "width:" +:+ of_int diameter +:+
      "px;height:" +:+ of_int diameter +:+ "px;border-radius:50%;" +:+ nl +:+
      "                    background:#c4c4c4; box-shadow:0 0 0 2px rgba(0,0,0,0.12), 0 6px 14px rgba(0,0,0,0.2);" +:+
      dq +:+ ">" +:+ nl +:+
      "        </div>" +:+ nl +:+
      "        " in
  MkDivIcon html (diameter, diameter) (radius, radius) "capco-round-icon".

(** Lines 144-157: one turn of the loop that fills the map [m], seen as
    the list of the markers added to it so far.  [folium.Popup] and
    [folium.DivIcon] store what they are given; [folium.Marker] validates
    its location, and raises [ValueError] on a NaN coordinate. *)
Definition add_marker (h : heap) (icon_size : Z) (rec : loc)
  (m : list Marker) : res (list Marker) :=
  let r := deref h rec in
  do html <- build_popup_html r;
  let popup := MkPopup html 360 320 in
  let icon_url := dict_get r "icon_image_url" VNone in
  let div_icon := build_round_logo_divicon icon_url icon_size in
  let tooltip :=
    py_str (dict_get r "city" (VStr EmptyString)) +:+ " · " +:+
    py_str (dict_get r "nome" (VStr EmptyString)) in
  do lat <- getitem r "latitude";
  do lon <- getitem r "longitude";
  do location <- validate_location lat lon;
  Ret (m ++ [MkMarker location popup tooltip div_icon]).

Fixpoint add_markers (h : heap) (icon_size : Z) (valids : list loc)
  (m : list Marker) : res (list Marker) :=
  match valids with
  | [] => Ret m
  | rec :: rest =>
      do m' <- add_marker h icon_size rec m;
      add_markers h icon_size rest m'
  end.

End Rendering.

(** ** The script around the validator (lines 23-40 and 126-157) *)

(** What a sidebar slider can return: a value from [lo] to [hi] in steps of
    [step] (lines 29-30). *)
Definition slider (lo hi step v : Z) : bool :=
  (lo <=? v) && (v <=? hi) && ((v - lo) mod step =? 0).

(** Line 29, [default_zoom]. *)
Definition zoom_choice (v : Z) : bool := slider 1 8 1 v.

(** Line 30, [icon_size]. *)
Definition icon_size_choice (v : Z) : bool := slider 24 72 2 v.

(** Lines 24-28, the options of [tile_choice]. *)
Definition TILE_CHOICES : list string :=
  ["OpenStreetMap"; "CartoDB positron"; "Esri WorldStreetMap"].

(** What the script can raise: the built-in exceptions of the core, the
    [AttributeError] of a method call on a value that lacks the method, and
    the failures of [open] and of [yaml.safe_load]. *)
Inductive failure : Type :=
| Builtin (e : exn)
| AttributeError
| OSError
| YAMLError.

Inductive outcome (A : Type) : Type :=
| Done (a : A)
| Failed (e : failure).

Arguments Done {A} a.
Arguments Failed {A} e.

Definition obind {A B : Type} (m : outcome A) (k : A -> outcome B)
  : outcome B :=
  match m with
  | Done a => k a
  | Failed e => Failed e
  end.

Notation "'run' x <- m ; k" := (obind m (fun x => k))
  (at level 10, x name, m at level 100, k at level 200) : res_scope.

Definition lift {A : Type} (m : res A) : outcome A :=
  match m with
  | Ret a => Done a
  | Raise e => Failed (Builtin e)
  end.

(** An element of the loaded list: a mapping, which lives in the heap, or
    any other value a YAML sequence can hold. *)
Inductive item : Type :=
| IMapping (l : loc)
| INull
| IBool (b : bool)
| IInt (z : Z)
| IFloat (f : float)
| IStr (s : string)
| IList (l : list pyval).

(** What [yaml.safe_load] returned: a sequence, or anything else (null for
    an empty file, a scalar, a mapping). *)
Inductive document : Type :=
| DocList (h : heap) (items : list item)
| DocOther.

(** Lines 35-40.  [file] is what opening and parsing the path gives. *)
Definition load_offices_from_yaml (file : outcome document)
  : outcome (heap * list item) :=
  run data <- file;
  match data with
  | DocList h items => Done (h, items)
  | DocOther => Failed (Builtin ValueError)
  end.

(** [needle in hay] for two strings. *)
Fixpoint occurs (needle hay : string) : bool :=
  if String.prefix needle hay then true
  else match hay with
       | EmptyString => false
       | String _ t => occurs needle t
       end.

(** [field in r] when [r] is not a mapping: a substring test on a string,
    a membership test on a list, [TypeError] on anything else. *)
Definition item_has (it : item) (field : string) : outcome bool :=
  match it with
  | IStr s => Done (occurs field s)
  | IList l =>
      Done (existsb (fun x => match x with
                              | VStr t => String.eqb t field
                              | _ => false
                              end) l)
  | _ => Failed (Builtin TypeError)
  end.

(** Line 47 when [r] is not a mapping: [r.get] is reached only when
    [field in r], and neither a string nor a list has a [get]. *)
Definition item_field_missing (it : item) (field : string) : outcome bool :=
  run present <- item_has it field;
  if negb present then Done true else Failed AttributeError.

Fixpoint item_missing_loop (it : item) (fields missing : list string)
  : outcome (list string) :=
  match fields with
  | [] => Done missing
  | field :: rest =>
      run b <- item_field_missing it field;
      item_missing_loop it rest (if b then missing ++ [field] else missing)
  end.

(** Lines 45-50 when [r] is not a mapping. *)
Definition item_missing_fields (it : item) : outcome (list string) :=
  run missing <-
    item_missing_loop it (REQUIRED_FOR_MARKER ++ REQUIRED_FOR_CARD) [];
  run a <- item_has it "adress";
  run no_address <- (if negb a
                     then run b <- item_has it "address"; Done (negb b)
                     else Done false);
  Done (if no_address then missing ++ ["adress/address"] else missing).

(** Lines 45-58 for any element of the list.  On a mapping this is
    [validate_step]; on a string or a list that gets as far as line 55,
    [r["latitude"]] raises [TypeError], which the [except] turns into the
    invalid-coordinate message. *)
Definition validate_item (i : Z) (it : item) (st : vstate) : outcome vstate :=
  match it with
  | IMapping l => lift (validate_step i l st)
  | _ =>
      run missing <- item_missing_fields it;
      match missing with
      | _ :: _ =>
          Done (VState (st_heap st)
                  (st_errors st ++ [missing_message i missing])
                  (st_valids st))
      | [] =>
          Done (VState (st_heap st)
                  (st_errors st ++ [invalid_message i])
                  (st_valids st))
      end
  end.

Fixpoint validate_items_loop (i : Z) (items : list item) (st : vstate)
  : outcome vstate :=
  match items with
  | [] => Done st
  | it :: rest =>
      run st' <- validate_item i it st;
      validate_items_loop (i + 1) rest st'
  end.

(** [validate_records] on whatever list the loader returned. *)
Definition validate_items (h : heap) (items : list item)
  : outcome (list loc * list string * heap) :=
  run st <- validate_items_loop 1 items (VState h [] []);
  Done (st_valids st, st_errors st, st_heap st).

(** [folium.Map] with the markers added to it. *)
Record FoliumMap : Type := MkFoliumMap {
  map_location : float * float;
  map_zoom_start : Z;
  map_tiles : string;
  map_markers : list Marker;
}.

(** What the page shows when the script ends without an exception. *)
Inductive page : Type :=
| LoadErrorPage (e : failure)
| NoOfficesPage (errs : list string)
| MapPage (errs : list string) (m : FoliumMap).

Section Script.

Variable str_compound : pyval -> string.

(** Whether the installed folium resolves a tile name to a provider (its
    own list of names, or the providers of xyzservices, depending on the
    version).  A name it does not resolve is a custom tile layer, which
    folium refuses with [ValueError] when no attribution comes with it. *)
Variable tiles_resolved : string -> bool.

(** [folium.Map(location=[lat, lon], zoom_start=..., tiles=...)]: the
    location is validated first, then the tile layer is built. *)
Definition folium_Map (center : float * float) (zoom_start : Z)
  (tiles : string) : res FoliumMap :=
  do location <- validate_location (VFloat center.1) (VFloat center.2);
  if tiles_resolved tiles then Ret (MkFoliumMap location zoom_start tiles [])
  else Raise ValueError.

(** Lines 128-159.  [st.error] followed by [st.stop] ends the script with
    the page as it stands; the expander of lines 135-137 lists [errs]. *)
Definition main (compensated : bool) (file : outcome document)
  (tile_choice : string) (default_zoom icon_size : Z) : outcome page :=
  match load_offices_from_yaml file with
  | Failed e => Done (LoadErrorPage e)
  | Done (h, records) =>
      run out <- validate_items h records;
      let '(valids, errs, h') := out in
      match valids with
      | [] => Done (NoOfficesPage errs)
      | _ :: _ =>
          run center <- lift (compute_map_center compensated h' valids);
          run m <- lift (folium_Map center default_zoom tile_choice);
          run markers <-
            lift (add_markers str_compound h' icon_size valids (map_markers m));
          Done (MapPage errs
                  (MkFoliumMap (map_location m) (map_zoom_start m)
                     (map_tiles m) markers))
      end
  end.

End Script.

(** * Vocabulary of the specification *)

(** The items kept, for a list that says of each item whether it was kept. *)
Fixpoint accepted (flags : list bool) (recs : list loc) : list loc :=
  match flags, recs with
  | b :: fs, l :: ls => if b then l :: accepted fs ls else accepted fs ls
  | _, _ => []
  end.

(** The numbers of the items rejected, counting from [i]. *)
Fixpoint rejected_items (i : Z) (flags : list bool) : list Z :=
  match flags with
  | [] => []
  | b :: fs =>
      if b then rejected_items (i + 1) fs else i :: rejected_items (i + 1) fs
  end.

Definition item_error (i : Z) (detail : string) : string :=
  "Item " +:+ of_int i +:+ ": " +:+ detail.

(** [r] is [r0] with its latitude replaced by the float read from it. *)
Definition lat_coerced (r0 r : record) : Prop :=
  exists v lat,
    r0 !! "latitude" = Some v /\ py_float v = Ret lat /\
    r = <["latitude" := VFloat lat]> r0.

(** [r] is [r0] with both coordinates replaced by the floats read from
    them. *)
Definition coerced (r0 r : record) : Prop :=
  exists vlat lat vlon lon,
    r0 !! "latitude" = Some vlat /\ py_float vlat = Ret lat /\
    r0 !! "longitude" = Some vlon /\ py_float vlon = Ret lon /\
    r = <["longitude" := VFloat lon]> (<["latitude" := VFloat lat]> r0).

(** What the validator may have done to a record so far. *)
Definition progress (r0 r : record) : Prop :=
  r = r0 \/ lat_coerced r0 r \/ coerced r0 r.

(** The fields the NA test is asked about. *)
Definition REQUIRED : list string := REQUIRED_FOR_MARKER ++ REQUIRED_FOR_CARD.

(** The NA test of field [f] of [r] gives a truth value: the field is
    absent, or its mask has exactly one element (every scalar and every
    mapping, and a list only when it wraps a single such value). *)
Definition has_truth (r : record) (f : string) : bool :=
  match r !! f with
  | Some v => Nat.eqb (np_size v) 1
  | None => true
  end.

(** No required field of [r] holds a value on which the NA test raises. *)
Definition na_decidable (r : record) : Prop :=
  forallb (has_truth r) REQUIRED = true.

Definition truth_defined (r : record) : Prop :=
  forall f v, f ∈ REQUIRED -> r !! f = Some v -> np_size v = 1%nat.

(** A field is missing when it is absent, or present with a null or NaN
    value, be it bare or the one element of a (nested) list. *)
Definition is_missing (r : record) (f : string) : bool :=
  match r !! f with
  | None => true
  | Some v => checknull (np_item v)
  end.

(** The names line 52 joins: the missing required fields in schema order,
    then the address pseudo-field. *)
Definition missing_names (r : record) : list string :=
  List.filter (is_missing r) REQUIRED ++
  (if negb (has_key r "adress") && negb (has_key r "address")
   then ["adress/address"] else []).

(** The record behind [l] sits at the float coordinates [p]. *)
Definition located (h : heap) (l : loc) (p : float * float) : Prop :=
  deref h l !! "latitude" = Some (VFloat p.1) /\
  deref h l !! "longitude" = Some (VFloat p.2).

(** [sep] does not occur in [s]. *)
Fixpoint free_of (sep : ascii) (s : string) : Prop :=
  match s with
  | EmptyString => True
  | String c t => c <> sep /\ free_of sep t
  end.

(** [path] is the part of [s] before its first [sep]: all of [s] when there
    is none. *)
Definition before_first (sep : ascii) (s path : string) : Prop :=
  free_of sep path /\ (s = path \/ exists q, s = path +:+ String sep q).

(** [path] ends with [ext], letter case aside. *)
Definition ends_with_nocase (path ext : string) : Prop :=
  exists stem tail, path = stem +:+ tail /\ lower tail = lower ext.

(** The rule of the specification: a non-empty string whose part before the
    first ["?"] ends, letter case aside, with one of the image suffixes. *)
Definition direct_image_reference (url : pyval) : Prop :=
  exists s path ext,
    url = VStr s /\ s <> EmptyString /\ before_first "?" s path /\
    In ext IMAGE_SUFFIXES /\ ends_with_nocase path ext.

(** The image region of a popup: what stands between the opening and the
    closing tag of the 140-pixel box. *)
Definition popup_image_region (r : record) : string :=
  match dict_get r "card_image_url" (VStr EmptyString) with
  | VStr s =>
      if _is_direct_image (VStr s) then IMG_OPEN +:+ s +:+ IMG_CLOSE
      else NO_IMAGE
  | _ => NO_IMAGE
  end.


(** Both coordinates of [r] are floats. *)
Definition has_float_coordinates (r : record) : Prop :=
  exists lat lon,
    r !! "latitude" = Some (VFloat lat) /\ r !! "longitude" = Some (VFloat lon).

(** [field in r] for an element that is a string or a list; false for any
    other element. *)
Definition mentions (it : item) (field : string) : bool :=
  match item_has it field with
  | Done b => b
  | Failed _ => false
  end.

(** The element is a string or a list. *)
Definition is_container (it : item) : bool :=
  match it with
  | IStr _ | IList _ => true
  | _ => false
  end.

(** The valid list only ever holds records with float coordinates. *)
Definition valids_located (st : vstate) : Prop :=
  forall l, l ∈ st_valids st -> has_float_coordinates (deref (st_heap st) l).

(** The coordinates that the NA test reports on a record whose coordinates
    are the floats [lat] and [lon]. *)
Definition nan_names (lat lon : float) : list string :=
  (if is_nan lat then ["latitude"] else []) ++
  (if is_nan lon then ["longitude"] else []).

(** Every record in the valid list is a record that passed the missing-field
    test, with both coordinates coerced since. *)
Definition valids_passed (st : vstate) : Prop :=
  forall l, l ∈ st_valids st ->
    exists r, missing_fields r = Ret [] /\ coerced r (deref (st_heap st) l).

(** The keys the script ever reads from a record. *)
Definition KNOWN_KEYS : list string :=
  REQUIRED ++ ["adress"; "address"; "card_image_url"; "icon_image_url"].

(** The value behind the address line of a popup (line 75). *)
Definition popup_address (r : record) : pyval :=
  py_or (py_or (dict_get r "adress" VNone) (dict_get r "address" VNone))
        (VStr EmptyString).

(** The float under key [k] of [r] is NaN. *)
Definition nan_at (r : record) (k : string) : bool :=
  match r !! k with
  | Some (VFloat f) => is_nan f
  | _ => false
  end.

(** Neither coordinate of [r] is a NaN float. *)
Definition nan_free (r : record) : bool :=
  negb (nan_at r "latitude") && negb (nan_at r "longitude").

(** folium accepts the map and every marker: the centre has no NaN, the
    tile name is resolved, no valid record has a NaN coordinate. *)
Definition folium_accepts (tiles_resolved : string -> bool)
  (center : float * float) (tiles : string) (h : heap) (valids : list loc)
  : bool :=
  negb (is_nan center.1) && negb (is_nan center.2) && tiles_resolved tiles &&
  forallb (fun l => nan_free (deref h l)) valids.

(** ** Sample data *)

Module Samples.

(** A record with every required field, as a YAML loader would hand it
    over: the coordinates are still strings. *)
Definition lisbon : record :=
  list_to_map
    [("latitude", VStr "38.7223"); ("longitude", VStr "-9.1393");
     ("city", VStr "Lisboa"); ("nome", VStr "Capco Lisboa");
     ("region", VStr "EMEA"); ("CapcoHub", VStr "https://hub.test/lisboa");
     ("contact", VStr "lisboa@x.test"); ("adress", VStr "Av. da Liberdade")].

Definition heap_of (rs : list record) : heap :=
  list_to_map (imap (fun i r => (i, r)) rs).

(** The heap a returning call leaves behind. *)
Definition heap_after (h : heap) (recs : list loc) : heap :=
  match validate_records h recs with
  | Ret (_, _, h') => h'
  | Raise _ => h
  end.

Definition with_card_image : record :=
  <["card_image_url" := VStr "https://x.test/lisboa.JPG?v=2"]> lisbon.

(** [contact] lists two addresses. *)
Definition two_contacts : record :=
  <["contact" := VList [VStr "a@x.test"; VStr "b@x.test"]]> lisbon.

(** [latitude: [null]] *)
Definition null_in_list : record := <["latitude" := VList [VNone]]> lisbon.

(** [latitude: .inf] *)
Definition at_infinity : record := <["latitude" := VFloat pos_inf]> lisbon.

Definition not_a_number : record := <["latitude" := VStr "not-a-number"]> lisbon.

(** [latitude: "nan"], a string that [float] reads as the NaN. *)
Definition nan_latitude : record := <["latitude" := VStr "nan"]> lisbon.

Definition no_contact : record := delete "contact" lisbon.

Definition office_at (lat lon : Z) : record :=
  <["latitude" := VFloat (round_Z lat)]>
    (<["longitude" := VFloat (round_Z lon)]> lisbon).

(** The largest finite double, [(2^53 - 1) * 2^971]. *)
Definition max_double : float := S754_finite false 9007199254740991 971.

Definition far_away : record := <["latitude" := VFloat max_double]> (office_at 0 0).

End Samples.

(** * Properties *)

(** ** Results *)

Lemma bind_Ret {A B : Type} (m : res A) (k : A -> res B) (b : B) :
  bind m k = Ret b -> exists a, m = Ret a /\ k a = Ret b.
Proof. destruct m as [a|e]; simpl; [eauto | discriminate]. Qed.

Ltac bind_inv H :=
  let a := fresh "a" in
  let Ha := fresh "Ha" in
  apply bind_Ret in H; destruct H as (a & Ha & H).

(** ** One error per rejected item *)

Lemma missing_message_item i ms :
  missing_message i ms = item_error i ("faltando campos " +:+ join ", " ms).
Proof. reflexivity. Qed.

Lemma invalid_message_item i :
  invalid_message i = item_error i "latitude/longitude inválidas".
Proof. reflexivity. Qed.

(** A turn of the loop either keeps the item or files one error under the
    item's number, never both. *)
Lemma validate_step_cases i l st st' :
  validate_step i l st = Ret st' ->
  (st_valids st' = st_valids st ++ [l] /\ st_errors st' = st_errors st) \/
  (st_valids st' = st_valids st /\
   exists d, st_errors st' = st_errors st ++ [item_error i d]).
Proof.
  unfold validate_step. intros H. bind_inv H.
  destruct a as [|f ms].
  - destruct (coerce_coordinates (st_heap st) l) as [h' [[]|e]];
      inversion H; subst; simpl.
    + left. split; reflexivity.
    + right. split; [reflexivity|]. eexists. rewrite invalid_message_item.
      reflexivity.
  - inversion H; subst; simpl. right. split; [reflexivity|].
    eexists. rewrite missing_message_item. reflexivity.
Qed.

Lemma validate_loop_trace recs : forall i st st',
  validate_loop i recs st = Ret st' ->
  exists flags details,
    length flags = length recs /\
    length details = length (rejected_items i flags) /\
    st_valids st' = st_valids st ++ accepted flags recs /\
    st_errors st' =
      st_errors st ++ zip_with item_error (rejected_items i flags) details.
Proof.
  induction recs as [|l rest IH]; intros i st st' H; simpl in H.
  - inversion H; subst. exists [], []. simpl. rewrite !app_nil_r. auto.
  - bind_inv H. apply IH in H. destruct H as (fs & ds & Hl & Hd & Hv & He).
    apply validate_step_cases in Ha. destruct Ha as [[Hv1 He1]|[Hv1 [d He1]]].
    + exists (true :: fs), ds. simpl. rewrite Hv, He, Hv1, He1, <- app_assoc.
      auto.
    + exists (false :: fs), (d :: ds). simpl.
      rewrite Hv, He, Hv1, He1, <- app_assoc. simpl. auto.
Qed.

Lemma accepted_rejected_length flags : forall i (recs : list loc),
  length flags = length recs ->
  (length (accepted flags recs) + length (rejected_items i flags))%nat
  = length recs.
Proof.
  induction flags as [|b fs IH]; intros i [|l ls] H; simpl in *;
    try discriminate; try reflexivity.
  injection H as H. destruct b; simpl; rewrite <- (IH (i + 1) ls H); lia.
Qed.

Lemma accepted_sublist flags : forall recs : list loc,
  accepted flags recs `sublist_of` recs.
Proof.
  induction flags as [|b fs IH]; intros [|l ls]; simpl;
    try apply sublist_nil_l.
  destruct b; [apply sublist_skip | apply sublist_cons]; apply IH.
Qed.

Lemma validate_records_trace h recs valids errors h' :
  validate_records h recs = Ret (valids, errors, h') ->
  exists flags details,
    length flags = length recs /\
    length details = length (rejected_items 1 flags) /\
    valids = accepted flags recs /\
    errors = zip_with item_error (rejected_items 1 flags) details.
Proof.
  unfold validate_records. intros H. bind_inv H. inversion H; subst.
  apply validate_loop_trace in Ha. simpl in Ha. exact Ha.
Qed.

(** C1. Whenever [validate_records] returns [(valids, errors)], the two
    lengths add up to the length of the input, and the errors are in
    one-to-one correspondence with the rejected items: there is a verdict per
    input position such that [valids] holds exactly the items with a positive
    verdict and [errors] holds, for each other position and in order, one
    string that opens with that position's number. *)
Theorem validate_records_count h recs valids errors h' :
  validate_records h recs = Ret (valids, errors, h') ->
  (length valids + length errors)%nat = length recs /\
  exists flags details,
    length flags = length recs /\
    length details = length (rejected_items 1 flags) /\
    valids = accepted flags recs /\
    errors = zip_with item_error (rejected_items 1 flags) details.
Proof.
  intros H. apply validate_records_trace in H.
  destruct H as (fs & ds & Hl & Hd & Hv & He).
  split; [|exists fs, ds; auto].
  rewrite Hv, He, length_zip_with, Hd, Nat.min_id.
  apply accepted_rejected_length, Hl.
Qed.

(** ** The coordinates are coerced in place *)

Lemma deref_setitem_eq h l k v :
  deref (setitem h l k v) l = <[k := v]> (deref h l).
Proof. unfold deref at 1, setitem. rewrite lookup_insert_eq. reflexivity. Qed.

Lemma lookup_setitem_ne h l l' k v :
  l' <> l -> setitem h l k v !! l' = h !! l'.
Proof. intros Hne. unfold setitem. apply lookup_insert_ne. congruence. Qed.

Lemma getitem_Ret r k v : getitem r k = Ret v <-> r !! k = Some v.
Proof.
  unfold getitem. destruct (r !! k); split; intros H; inversion H; reflexivity.
Qed.

Lemma coerce_coordinates_spec h l h' out :
  coerce_coordinates h l = (h', out) ->
  (forall l', l' <> l -> h' !! l' = h !! l') /\
  match out with
  | Ret _ => coerced (deref h l) (deref h' l)
  | Raise _ => h' = h \/ lat_coerced (deref h l) (deref h' l)
  end.
Proof.
  unfold coerce_coordinates. intros H.
  destruct (bind (getitem (deref h l) "latitude") _) as [lat|e] eqn:Hlat.
  2:{ inversion H; subst. split; [reflexivity | left; reflexivity]. }
  bind_inv Hlat. apply getitem_Ret in Ha.
  destruct (bind (getitem (deref (setitem h l "latitude" (VFloat lat)) l) _) _)
    as [lon|e] eqn:Hlon.
  - bind_inv Hlon. apply getitem_Ret in Ha0.
    rewrite deref_setitem_eq, lookup_insert_ne in Ha0 by discriminate.
    inversion H; subst. split.
    + intros l' Hne. rewrite !lookup_setitem_ne by assumption. reflexivity.
    + rewrite !deref_setitem_eq. exists a, lat, a0, lon. auto.
  - inversion H; subst. split.
    + intros l' Hne. apply lookup_setitem_ne, Hne.
    + right. rewrite deref_setitem_eq. exists a, lat. auto.
Qed.

Lemma lat_coerced_again r0 r r' :
  lat_coerced r0 r -> lat_coerced r r' -> r' = r.
Proof.
  intros (v & a & _ & _ & ->) (v' & a' & Hv' & Hf & ->).
  rewrite lookup_insert_eq in Hv'. inversion Hv'; subst. simpl in Hf.
  inversion Hf; subst. apply insert_insert_eq.
Qed.

Lemma coerced_lat_again r0 r r' :
  coerced r0 r -> lat_coerced r r' -> r' = r.
Proof.
  intros (v & a & w & b & _ & _ & _ & _ & ->) (v' & a' & Hv' & Hf & ->).
  rewrite lookup_insert_ne, lookup_insert_eq in Hv' by discriminate.
  inversion Hv'; subst. simpl in Hf. inversion Hf; subst.
  apply insert_id. rewrite lookup_insert_ne, lookup_insert_eq by discriminate.
  reflexivity.
Qed.

Lemma coerced_again r0 r r' :
  coerced r0 r -> coerced r r' -> r' = r.
Proof.
  intros (v & a & w & b & _ & _ & _ & _ & ->)
         (v' & a' & w' & b' & Hv' & Hfa & Hw' & Hfb & ->).
  rewrite lookup_insert_ne, lookup_insert_eq in Hv' by discriminate.
  rewrite lookup_insert_eq in Hw'.
  inversion Hv'; inversion Hw'; subst. simpl in Hfa, Hfb.
  inversion Hfa; inversion Hfb; subst.
  rewrite (insert_id _ "latitude").
  - apply insert_insert_eq.
  - rewrite lookup_insert_ne, lookup_insert_eq by discriminate. reflexivity.
Qed.

Lemma lat_coerced_then_coerced r0 r r' :
  lat_coerced r0 r -> coerced r r' -> coerced r0 r'.
Proof.
  intros (v & a & Hv & Hf & ->) (v' & a' & w & b & Hv' & Hfa & Hw & Hfb & ->).
  rewrite lookup_insert_eq in Hv'. inversion Hv'; subst. simpl in Hfa.
  inversion Hfa; subst.
  rewrite lookup_insert_ne in Hw by discriminate.
  exists v, a', w, b. rewrite insert_insert_eq. auto.
Qed.

Lemma progress_lat r0 r r' :
  progress r0 r -> lat_coerced r r' -> progress r0 r'.
Proof.
  intros [->|[H|H]] H'.
  - right; left; assumption.
  - rewrite (lat_coerced_again _ _ _ H H'). right; left; assumption.
  - rewrite (coerced_lat_again _ _ _ H H'). right; right; assumption.
Qed.

Lemma progress_coerced r0 r r' :
  progress r0 r -> coerced r r' -> coerced r0 r'.
Proof.
  intros [->|[H|H]] H'.
  - assumption.
  - eapply lat_coerced_then_coerced; eassumption.
  - rewrite (coerced_again _ _ _ H H'). assumption.
Qed.

Lemma deref_ext h h' l : h' !! l = h !! l -> deref h' l = deref h l.
Proof. unfold deref. intros ->. reflexivity. Qed.

(** The heap after one turn of the loop. *)
Lemma validate_step_heap i l st st' :
  validate_step i l st = Ret st' ->
  (forall l', l' <> l -> st_heap st' !! l' = st_heap st !! l') /\
  ((st_valids st' = st_valids st ++ [l] /\
    coerced (deref (st_heap st) l) (deref (st_heap st') l)) \/
   (st_valids st' = st_valids st /\
    (st_heap st' = st_heap st \/
     lat_coerced (deref (st_heap st) l) (deref (st_heap st') l)))).
Proof.
  unfold validate_step. intros H. bind_inv H. destruct a as [|f ms].
  - destruct (coerce_coordinates (st_heap st) l) as [h1 out] eqn:Hc.
    apply coerce_coordinates_spec in Hc. destruct Hc as [Hfr Hc].
    destruct out as [[]|e]; inversion H; subst; simpl; split; auto.
  - inversion H; subst; simpl. split; auto.
Qed.

Lemma validate_loop_heap h0 recs : forall i st st',
  validate_loop i recs st = Ret st' ->
  (forall l, progress (deref h0 l) (deref (st_heap st) l)) ->
  (forall l, l ∈ st_valids st -> coerced (deref h0 l) (deref (st_heap st) l)) ->
  (forall l, progress (deref h0 l) (deref (st_heap st') l)) /\
  (forall l, l ∈ st_valids st' -> coerced (deref h0 l) (deref (st_heap st') l)) /\
  (forall l, l ∉ recs -> st_heap st' !! l = st_heap st !! l).
Proof.
  induction recs as [|l rest IH]; intros i st st' H Hp Hv; simpl in H.
  - inversion H; subst. auto.
  - bind_inv H. apply validate_step_heap in Ha. destruct Ha as [Hfr Hcase].
    apply IH in H.
    + destruct H as (Hp' & Hv' & Hfr'). repeat split; auto.
      intros l' Hl'. rewrite not_elem_of_cons in Hl'. destruct Hl' as [Hne Hl'].
      rewrite Hfr' by assumption. apply Hfr, Hne.
    + intros l'. destruct (decide (l' = l)) as [->|Hne].
      * destruct Hcase as [[_ Hc]|[_ [->|Hc]]]; auto.
        -- right; right. eapply progress_coerced; eauto.
        -- eapply progress_lat; eauto.
      * rewrite (deref_ext _ _ _ (Hfr l' Hne)). apply Hp.
    + intros l' Hl'. destruct (decide (l' = l)) as [->|Hne].
      * destruct Hcase as [[_ Hc]|[Hva [Hh|Hc]]].
        -- eapply progress_coerced; eauto.
        -- rewrite Hh. apply Hv. rewrite <- Hva. assumption.
        -- rewrite Hva in Hl'. specialize (Hv _ Hl').
           rewrite (coerced_lat_again _ _ _ Hv Hc). assumption.
      * rewrite (deref_ext _ _ _ (Hfr l' Hne)). apply Hv.
        destruct Hcase as [[Hva _]|[Hva _]]; rewrite Hva in Hl'; auto.
        apply elem_of_app in Hl'. destruct Hl' as [?|Hl']; auto.
        apply list_elem_of_singleton in Hl'. contradiction.
Qed.

Lemma accepted_elem_of flags : forall (recs : list loc) l,
  l ∈ accepted flags recs -> l ∈ recs.
Proof.
  intros recs l Hl. eapply elem_of_sublist; [exact Hl | apply accepted_sublist].
Qed.

(** The heap and the valid list that a returning call leaves behind. *)
Lemma validate_records_heap h recs valids errors h' :
  validate_records h recs = Ret (valids, errors, h') ->
  (forall l, l ∈ valids -> l ∈ recs /\ coerced (deref h l) (deref h' l)) /\
  (forall l, l ∉ recs -> h' !! l = h !! l).
Proof.
  unfold validate_records. intros H. bind_inv H. inversion H; subst.
  pose proof (validate_loop_trace _ _ _ _ Ha) as (fs & ds & _ & _ & Hv & _).
  apply (validate_loop_heap h) in Ha; simpl.
  - destruct Ha as (_ & Hc & Hfr). split; [|exact Hfr].
    intros l Hl. split; [|apply Hc, Hl].
    rewrite Hv in Hl. simpl in Hl. eapply accepted_elem_of, Hl.
  - intros l. left. reflexivity.
  - intros l Hl. simpl in Hl. apply elem_of_nil in Hl. contradiction.
Qed.

(** C10. For a returning call and every reference [l] in the valid output:
    [l] is one of the references the caller passed in (the same object, not
    a copy), and the object behind it is, in the heap the call leaves
    behind, the caller's mapping with [latitude] and [longitude] replaced by
    the floats [float] reads from them; every other key holds what it held
    before.  Objects that were not passed in are untouched. *)
Theorem validate_records_in_place h recs valids errors h' :
  validate_records h recs = Ret (valids, errors, h') ->
  (forall l, l ∈ valids ->
     l ∈ recs /\
     (exists vlat lat vlon lon,
        deref h l !! "latitude" = Some vlat /\ py_float vlat = Ret lat /\
        deref h l !! "longitude" = Some vlon /\ py_float vlon = Ret lon /\
        deref h' l =
          <["longitude" := VFloat lon]>
            (<["latitude" := VFloat lat]> (deref h l))) /\
     (forall k, k <> "latitude" -> k <> "longitude" ->
        deref h' l !! k = deref h l !! k)) /\
  (forall l, l ∉ recs -> h' !! l = h !! l).
Proof.
  intros H. apply validate_records_heap in H. destruct H as [Hv Hfr].
  split; [|exact Hfr]. intros l Hl. destruct (Hv l Hl) as [Hin Hc].
  split; [exact Hin|]. split; [exact Hc|].
  destruct Hc as (v & a & w & b & _ & _ & _ & _ & ->).
  intros k Hk1 Hk2. rewrite !lookup_insert_ne by congruence. reflexivity.
Qed.

Lemma coerced_lookup r0 r :
  coerced r0 r ->
  exists vlat lat vlon lon,
    r0 !! "latitude" = Some vlat /\ py_float vlat = Ret lat /\
    r0 !! "longitude" = Some vlon /\ py_float vlon = Ret lon /\
    r !! "latitude" = Some (VFloat lat) /\
    r !! "longitude" = Some (VFloat lon).
Proof.
  intros (v & a & w & b & Hv1 & Hf1 & Hv2 & Hf2 & ->).
  exists v, a, w, b. repeat split; auto.
  - rewrite lookup_insert_ne, lookup_insert_eq by discriminate. reflexivity.
  - apply lookup_insert_eq.
Qed.

(** C4 (amended). For a returning call and every reference in the valid
    output, the record's latitude and longitude are floats, namely what
    [float] returns for the values the caller supplied.  Nothing makes them
    finite: an infinite float passes the NA test and the coercion. *)
Theorem validate_records_float_coordinates h recs valids errors h' :
  validate_records h recs = Ret (valids, errors, h') ->
  forall l, l ∈ valids ->
    exists vlat lat vlon lon,
      deref h l !! "latitude" = Some vlat /\ py_float vlat = Ret lat /\
      deref h l !! "longitude" = Some vlon /\ py_float vlon = Ret lon /\
      deref h' l !! "latitude" = Some (VFloat lat) /\
      deref h' l !! "longitude" = Some (VFloat lon).
Proof.
  intros H l Hl. apply validate_records_heap in H. destruct H as [Hv _].
  destruct (Hv l Hl) as [_ Hc]. apply coerced_lookup, Hc.
Qed.

(** ** Which records are rejected, and with which message *)

(** The NA test gives a truth value exactly for a value whose mask has one
    element, and then it is the nullness of that element. *)
Lemma isna_truth_spec v :
  isna_truth v =
    if Nat.eqb (np_size v) 1 then Ret (checknull (np_item v))
    else Raise ValueError.
Proof. destruct v; reflexivity. Qed.

Lemma has_key_lookup r k : has_key r k = match r !! k with Some _ => true | None => false end.
Proof.
  unfold has_key. destruct (r !! k) eqn:E.
  - apply bool_decide_eq_true. eauto.
  - apply bool_decide_eq_false. intros [v Hv]. discriminate.
Qed.

Lemma na_decidable_spec r : na_decidable r <-> truth_defined r.
Proof.
  unfold na_decidable, truth_defined. rewrite forallb_forall. split.
  - intros H f v Hf Hv. apply list_elem_of_In in Hf. specialize (H f Hf).
    unfold has_truth in H. rewrite Hv in H. apply Nat.eqb_eq, H.
  - intros H f Hf. apply list_elem_of_In in Hf. unfold has_truth.
    destruct (r !! f) as [v|] eqn:Hv; [|reflexivity].
    apply Nat.eqb_eq. eapply H; eassumption.
Qed.

Lemma field_missing_spec r f :
  (forall v, r !! f = Some v -> np_size v = 1%nat) ->
  field_missing r f = Ret (is_missing r f).
Proof.
  intros H. unfold field_missing, is_missing, dict_get.
  rewrite has_key_lookup. destruct (r !! f) as [v|]; simpl; [|reflexivity].
  rewrite isna_truth_spec, (H v eq_refl). reflexivity.
Qed.

Lemma missing_loop_spec r fields : forall acc,
  (forall f v, f ∈ fields -> r !! f = Some v -> np_size v = 1%nat) ->
  missing_loop r fields acc = Ret (acc ++ List.filter (is_missing r) fields).
Proof.
  induction fields as [|f rest IH]; intros acc H; simpl.
  - rewrite app_nil_r. reflexivity.
  - rewrite field_missing_spec by (intros v; apply H; left). simpl.
    rewrite IH by (intros g v Hg; apply H; right; exact Hg).
    destruct (is_missing r f); [rewrite <- app_assoc|]; reflexivity.
Qed.

Lemma missing_fields_spec r :
  truth_defined r -> missing_fields r = Ret (missing_names r).
Proof.
  intros H. unfold missing_fields, missing_names.
  change (REQUIRED_FOR_MARKER ++ REQUIRED_FOR_CARD) with REQUIRED.
  rewrite missing_loop_spec by exact H. simpl.
  destruct (negb (has_key r "adress") && negb (has_key r "address"));
    [reflexivity | rewrite app_nil_r; reflexivity].
Qed.

Lemma filter_nil_false {A : Type} (p : A -> bool) (xs : list A) :
  List.filter p xs = [] -> forall x, In x xs -> p x = false.
Proof.
  induction xs as [|y ys IH]; simpl; intros H x Hx; [contradiction|].
  destruct (p y) eqn:Hy; [discriminate|].
  destruct Hx as [->|Hx]; [exact Hy | apply IH; assumption].
Qed.

Lemma missing_names_nil r f :
  missing_names r = [] -> In f REQUIRED ->
  exists v, r !! f = Some v /\ checknull (np_item v) = false.
Proof.
  unfold missing_names. intros H Hf. apply app_eq_nil in H.
  destruct H as [H _]. pose proof (filter_nil_false _ _ H f Hf) as Hm.
  unfold is_missing in Hm. destruct (r !! f) as [v|]; [eauto | discriminate].
Qed.

Lemma missing_names_nil_coordinates r :
  missing_names r = [] ->
  exists vlat vlon,
    r !! "latitude" = Some vlat /\ r !! "longitude" = Some vlon.
Proof.
  intros H.
  destruct (missing_names_nil r "latitude" H) as (vlat & Hlat & _);
    [simpl; auto|].
  destruct (missing_names_nil r "longitude" H) as (vlon & Hlon & _);
    [simpl; auto|].
  eauto.
Qed.

(** Line 55 on a record that has both coordinates. *)
Lemma coerce_coordinates_present h l vlat vlon :
  deref h l !! "latitude" = Some vlat ->
  deref h l !! "longitude" = Some vlon ->
  exists h',
    coerce_coordinates h l =
      (h', match py_float vlat, py_float vlon with
           | Ret _, Ret _ => Ret tt
           | Ret _, Raise e => Raise e
           | Raise e, _ => Raise e
           end).
Proof.
  intros Hlat Hlon. unfold coerce_coordinates, getitem. rewrite Hlat. simpl.
  destruct (py_float vlat) as [lat|e]; [|eauto].
  rewrite deref_setitem_eq, lookup_insert_ne, Hlon by discriminate. simpl.
  destruct (py_float vlon) as [lon|e]; eauto.
Qed.

(** C2 (amended). Take a turn of the loop on a record none of whose
    required fields holds a value on which the NA test raises.  If some
    required field is missing (absent, or null/NaN, bare or as the one
    element of a list), or neither [adress] nor [address] is present, the
    turn appends exactly the one message that names the item number and the
    comma-joined missing names, with [adress/address] for the address, and
    leaves the heap as it was: no coercion is attempted.  Otherwise both
    coordinates are present, and the turn appends the invalid-coordinate
    message when [float] fails on either of them and keeps the record when
    it fails on neither.  In particular a latitude ["not-a-number"] on a
    record with nothing missing gets the invalid-coordinate message. *)
Theorem validate_step_messages i l st :
  na_decidable (deref (st_heap st) l) ->
  let r := deref (st_heap st) l in
  (missing_names r <> [] ->
   validate_step i l st =
     Ret (VState (st_heap st)
            (st_errors st ++
               ["Item " +:+ of_int i +:+ ": faltando campos " +:+
                join ", " (missing_names r)])
            (st_valids st))) /\
  (missing_names r = [] ->
   exists vlat vlon h',
     r !! "latitude" = Some vlat /\ r !! "longitude" = Some vlon /\
     validate_step i l st =
       Ret (if returns (py_float vlat) && returns (py_float vlon)
            then VState h' (st_errors st) (st_valids st ++ [l])
            else VState h'
                   (st_errors st ++
                      ["Item " +:+ of_int i +:+ ": latitude/longitude inválidas"])
                   (st_valids st))) /\
  (missing_names r = [] -> r !! "latitude" = Some (VStr "not-a-number") ->
   exists h',
     validate_step i l st =
       Ret (VState h'
              (st_errors st ++
                 ["Item " +:+ of_int i +:+ ": latitude/longitude inválidas"])
              (st_valids st))).
Proof.
  intros Hna r. apply na_decidable_spec in Hna. unfold validate_step. fold r.
  rewrite (missing_fields_spec r Hna). simpl.
  assert (Hnil : missing_names r = [] ->
    exists vlat vlon h',
      r !! "latitude" = Some vlat /\ r !! "longitude" = Some vlon /\
      match missing_names r with
      | [] =>
          match coerce_coordinates (st_heap st) l with
          | (h', Ret _) => Ret (VState h' (st_errors st) (st_valids st ++ [l]))
          | (h', Raise _) =>
              Ret (VState h' (st_errors st ++ [invalid_message i]) (st_valids st))
          end
      | _ :: _ =>
          Ret (VState (st_heap st)
                 (st_errors st ++ [missing_message i (missing_names r)])
                 (st_valids st))
      end =
      Ret (if returns (py_float vlat) && returns (py_float vlon)
           then VState h' (st_errors st) (st_valids st ++ [l])
           else VState h' (st_errors st ++ [invalid_message i]) (st_valids st))).
  { intros Hms. destruct (missing_names_nil_coordinates r Hms) as (vlat & vlon & Hlat & Hlon).
    destruct (coerce_coordinates_present _ _ _ _ Hlat Hlon) as [h' Hc].
    exists vlat, vlon, h'. rewrite Hms, Hc. repeat split; auto.
    destruct (py_float vlat), (py_float vlon); reflexivity. }
  split; [|split].
  - intros Hms. destruct (missing_names r); [congruence | reflexivity].
  - exact Hnil.
  - intros Hms Hlat. destruct (Hnil Hms) as (vlat & vlon & h' & Hlat' & _ & Hstep).
    rewrite Hlat in Hlat'. inversion Hlat'; subst vlat.
    exists h'. rewrite Hstep. reflexivity.
Qed.

(** ** When the validator returns, and when it raises *)

Lemma truth_defined_insert_float r k x :
  truth_defined r -> truth_defined (<[k := VFloat x]> r).
Proof.
  intros H f v Hf Hv. destruct (decide (k = f)) as [->|Hne].
  - rewrite lookup_insert_eq in Hv. inversion Hv; subst. reflexivity.
  - rewrite lookup_insert_ne in Hv by exact Hne. eapply H; eassumption.
Qed.

Lemma truth_defined_progress r0 r :
  truth_defined r0 -> progress r0 r -> truth_defined r.
Proof.
  intros H [->|[(v & a & _ & _ & ->)|(v & a & w & b & _ & _ & _ & _ & ->)]].
  - exact H.
  - apply truth_defined_insert_float, H.
  - apply truth_defined_insert_float, truth_defined_insert_float, H.
Qed.

Lemma validate_step_returns i l st :
  truth_defined (deref (st_heap st) l) -> exists st', validate_step i l st = Ret st'.
Proof.
  intros H. unfold validate_step. rewrite (missing_fields_spec _ H). simpl.
  destruct (missing_names _); [|eauto].
  destruct (coerce_coordinates (st_heap st) l) as [h' [[]|e]]; eauto.
Qed.

Lemma validate_step_progress h0 i l st st' :
  validate_step i l st = Ret st' ->
  (forall l', progress (deref h0 l') (deref (st_heap st) l')) ->
  forall l', progress (deref h0 l') (deref (st_heap st') l').
Proof.
  intros H Hp l'. apply validate_step_heap in H. destruct H as [Hfr Hcase].
  destruct (decide (l' = l)) as [->|Hne].
  - destruct Hcase as [[_ Hc]|[_ [->|Hc]]]; auto.
    + right; right. eapply progress_coerced; eauto.
    + eapply progress_lat; eauto.
  - rewrite (deref_ext _ _ _ (Hfr l' Hne)). apply Hp.
Qed.

Lemma validate_loop_returns h0 recs : forall i st,
  (forall l, l ∈ recs -> truth_defined (deref h0 l)) ->
  (forall l, progress (deref h0 l) (deref (st_heap st) l)) ->
  exists st', validate_loop i recs st = Ret st'.
Proof.
  induction recs as [|l rest IH]; intros i st Hna Hp; simpl; [eauto|].
  destruct (validate_step_returns i l st) as [st1 H1].
  { eapply truth_defined_progress; [apply Hna; left | apply Hp]. }
  rewrite H1. simpl. apply IH.
  - intros l' Hl'. apply Hna. right. exact Hl'.
  - eapply validate_step_progress; eassumption.
Qed.

(** X1. The validator returns on every input in which no required field
    holds a value on which the NA test raises; scalars and mappings never
    do. *)
Theorem validate_records_returns h recs :
  (forall l, l ∈ recs -> na_decidable (deref h l)) ->
  exists valids errors h', validate_records h recs = Ret (valids, errors, h').
Proof.
  intros Hna. unfold validate_records.
  destruct (validate_loop_returns h recs 1 (VState h [] [])) as [st' H].
  { intros l Hl. apply na_decidable_spec, Hna, Hl. }
  { intros l. left. reflexivity. }
  rewrite H. simpl. eauto.
Qed.

Lemma np_size_not_list v :
  (forall l, v <> VList l) -> np_size v = 1%nat.
Proof. destruct v; intros H; try reflexivity. exfalso. eapply H; reflexivity. Qed.

(** C3. The validator raises on a list of mappings: a record whose
    [contact] is a list of two strings makes the NA test of line 47 raise
    [ValueError], outside the [try] of lines 54-57, and the call returns no
    pair at all, although the record before it was fine. *)
Theorem validate_records_raises :
  validate_records (Samples.heap_of [Samples.lisbon; Samples.two_contacts])
    [0; 1]%nat = Raise ValueError.
Proof. vm_compute. reflexivity. Qed.

(** C4, as stated, fails: a record whose latitude is the float infinity
    passes the NA test and the coercion, and reaches the valid output with
    an infinite latitude. *)
Lemma validate_records_accepts_infinity :
  exists h',
    validate_records (Samples.heap_of [Samples.at_infinity]) [0%nat]
      = Ret ([0%nat], [], h') /\
    deref h' 0%nat !! "latitude" = Some (VFloat pos_inf) /\
    is_finite pos_inf = false.
Proof.
  eexists. split; [vm_compute; reflexivity|].
  split; vm_compute; reflexivity.
Qed.

(** C2, as stated, fails: with [latitude: [null]] the field is present and
    its value is neither null nor NaN, and [float] fails on it, so the claim
    promises the invalid-coordinate message; the validator files the
    missing-field message instead. *)
Lemma validate_records_null_in_list :
  Samples.null_in_list !! "latitude" = Some (VList [VNone]) /\
  checknull (VList [VNone]) = false /\
  py_float (VList [VNone]) = Raise TypeError /\
  validate_records (Samples.heap_of [Samples.null_in_list]) [0%nat]
    = Ret ([], ["Item 1: faltando campos latitude"],
           Samples.heap_of [Samples.null_in_list]) /\
  "Item 1: faltando campos latitude" <> invalid_message 1.
Proof.
  repeat split; try (vm_compute; reflexivity).
  vm_compute. discriminate.
Qed.

(** ** The map centre *)

Lemma column_floats h key recs xs :
  Forall2 (fun l x => deref h l !! key = Some (VFloat x)) recs xs ->
  column h key recs = Ret (VFloat <$> xs).
Proof.
  induction 1 as [|l x recs xs Hl _ IH]; simpl; [reflexivity|].
  unfold getitem. rewrite Hl. simpl. rewrite IH. reflexivity.
Qed.

Lemma sum_floats_returns compensated xs : forall total c,
  exists s, sum_floats compensated total c (VFloat <$> xs) = Ret (VFloat s).
Proof.
  induction xs as [|x xs IH]; intros total c; simpl; [eauto|].
  destruct compensated; apply IH.
Qed.

Lemma sum_floats_plain xs : forall total c,
  sum_floats false total c (VFloat <$> xs) = Ret (VFloat (fold_left fadd xs total)).
Proof. induction xs as [|x xs IH]; intros total c; simpl; [reflexivity | apply IH]. Qed.

Lemma py_sum_floats compensated xs :
  xs <> [] ->
  exists s,
    py_sum compensated (VFloat <$> xs) = Ret (VFloat s) /\
    (compensated = false -> s = fold_left fadd xs pos_zero).
Proof.
  destruct xs as [|x xs]; [congruence|]. intros _.
  unfold py_sum. simpl.
  destruct (sum_floats_returns compensated xs (fadd pos_zero x) pos_zero)
    as [s Hs].
  exists s. split; [exact Hs|]. intros ->.
  rewrite sum_floats_plain in Hs. inversion Hs. reflexivity.
Qed.

Lemma located_columns h recs coords :
  Forall2 (located h) recs coords ->
  column h "latitude" recs = Ret (VFloat <$> coords.*1) /\
  column h "longitude" recs = Ret (VFloat <$> coords.*2).
Proof.
  intros H. split; apply column_floats.
  - induction H as [|l p recs coords [Hl _] _ IH]; simpl; constructor; auto.
  - induction H as [|l p recs coords [_ Hl] _ IH]; simpl; constructor; auto.
Qed.

Lemma compute_map_center_floats compensated h recs coords :
  recs <> [] ->
  Forall2 (located h) recs coords ->
  exists slat slon,
    py_sum compensated (VFloat <$> coords.*1) = Ret (VFloat slat) /\
    py_sum compensated (VFloat <$> coords.*2) = Ret (VFloat slon) /\
    (compensated = false ->
     slat = fold_left fadd coords.*1 pos_zero /\
     slon = fold_left fadd coords.*2 pos_zero) /\
    compute_map_center compensated h recs =
      Ret (fdiv slat (round_Z (Z.of_nat (length recs))),
           fdiv slon (round_Z (Z.of_nat (length recs)))).
Proof.
  intros Hne H. pose proof (Forall2_length _ _ _ H) as Hlen.
  destruct (located_columns _ _ _ H) as [Hlat Hlon].
  assert (Hc : coords <> []) by (destruct coords, recs; simpl in *; congruence).
  destruct (py_sum_floats compensated coords.*1) as (slat & Hslat & Hplat).
  { destruct coords; simpl; congruence. }
  destruct (py_sum_floats compensated coords.*2) as (slon & Hslon & Hplon).
  { destruct coords; simpl; congruence. }
  exists slat, slon. repeat split; auto.
  unfold compute_map_center. rewrite Hlat, Hlon. simpl.
  rewrite Hslat. simpl. rewrite Hslon.
  rewrite !length_fmap, <- Hlen.
  destruct recs as [|l recs]; [congruence|]. reflexivity.
Qed.

(** C5 (amended). For a non-empty list of records with float coordinates,
    [compute_map_center] returns the float sum of the latitudes divided by
    the count and the float sum of the longitudes divided by the count, each
    operation rounded as binary64 arithmetic rounds it; without compensated
    summation the sum is the left-to-right chain of float additions from
    zero.  For records at (10, 20) and (20, 40) the result is (15, 30)
    exactly, under either summation. *)
Theorem compute_map_center_mean :
  (forall compensated h recs coords,
     recs <> [] ->
     Forall2 (located h) recs coords ->
     exists slat slon,
       py_sum compensated (VFloat <$> coords.*1) = Ret (VFloat slat) /\
       py_sum compensated (VFloat <$> coords.*2) = Ret (VFloat slon) /\
       (compensated = false ->
        slat = fold_left fadd coords.*1 pos_zero /\
        slon = fold_left fadd coords.*2 pos_zero) /\
       compute_map_center compensated h recs =
         Ret (fdiv slat (round_Z (Z.of_nat (length recs))),
              fdiv slon (round_Z (Z.of_nat (length recs))))) /\
  (forall compensated h a b,
     located h a (round_Z 10, round_Z 20) ->
     located h b (round_Z 20, round_Z 40) ->
     compute_map_center compensated h [a; b] = Ret (round_Z 15, round_Z 30)).
Proof.
  split; [exact compute_map_center_floats|].
  intros compensated h a b Ha Hb.
  destruct (compute_map_center_floats compensated h [a; b]
              [(round_Z 10, round_Z 20); (round_Z 20, round_Z 40)])
    as (slat & slon & Hslat & Hslon & _ & ->).
  - discriminate.
  - constructor; [exact Ha|]. constructor; [exact Hb|]. constructor.
  - destruct compensated; vm_compute in Hslat, Hslon;
      inversion Hslat; inversion Hslon; subst; vm_compute; reflexivity.
Qed.

(** C5, as stated, fails: two records that the validator accepts, both at
    the latitude of the largest finite double, whose mean is that very
    double; the sum overflows and the centre latitude is infinite, under
    either summation. *)
Lemma compute_map_center_overflows :
  validate_records (Samples.heap_of [Samples.far_away; Samples.far_away])
    [0; 1]%nat
    = Ret ([0; 1]%nat, [],
           Samples.heap_of [Samples.far_away; Samples.far_away]) /\
  located (Samples.heap_of [Samples.far_away; Samples.far_away]) 0%nat
    (Samples.max_double, pos_zero) /\
  located (Samples.heap_of [Samples.far_away; Samples.far_away]) 1%nat
    (Samples.max_double, pos_zero) /\
  is_finite Samples.max_double = true /\
  compute_map_center false
    (Samples.heap_of [Samples.far_away; Samples.far_away]) [0; 1]%nat
    = Ret (pos_inf, pos_zero) /\
  compute_map_center true
    (Samples.heap_of [Samples.far_away; Samples.far_away]) [0; 1]%nat
    = Ret (pos_inf, pos_zero) /\
  pos_inf <> Samples.max_double.
Proof.
  repeat split; try (vm_compute; reflexivity). discriminate.
Qed.

(** ** Direct image references *)

Lemma append_assoc (a b c : string) : (a +:+ b) +:+ c = a +:+ b +:+ c.
Proof.
  induction a as [|x a IH]; [reflexivity|].
  change (String x ((a +:+ b) +:+ c) = String x (a +:+ b +:+ c)).
  rewrite IH. reflexivity.
Qed.

Lemma lower_app (a b : string) : lower (a +:+ b) = lower a +:+ lower b.
Proof.
  induction a as [|x a IH]; [reflexivity|].
  change (String (to_lower x) (lower (a +:+ b))
          = String (to_lower x) (lower a +:+ lower b)).
  rewrite IH. reflexivity.
Qed.

Lemma lower_app_inv (p a b : string) :
  lower p = a +:+ b ->
  exists a' b', p = a' +:+ b' /\ lower a' = a /\ lower b' = b.
Proof.
  revert p. induction a as [|x a IH]; intros p H; simpl in H.
  - exists EmptyString, p. auto.
  - destruct p as [|y p]; simpl in H; [discriminate|].
    injection H as Hx H. destruct (IH p H) as (a' & b' & -> & <- & <-).
    exists (String y a'), b'. simpl. rewrite Hx. auto.
Qed.

Lemma to_lower_qmark (c : ascii) :
  Ascii.eqb (to_lower c) "?" = Ascii.eqb c "?".
Proof. destruct c as [[] [] [] [] [] [] [] []]; reflexivity. Qed.

Lemma split_not_nil sep s : split sep s <> [].
Proof.
  destruct s as [|c t]; simpl; [discriminate|].
  destruct (Ascii.eqb c sep); [discriminate|].
  destruct (split sep t); discriminate.
Qed.

Lemma hd_split_cons sep c t :
  hd EmptyString (split sep (String c t)) =
    if Ascii.eqb c sep then EmptyString
    else String c (hd EmptyString (split sep t)).
Proof.
  simpl. destruct (Ascii.eqb c sep); [reflexivity|].
  pose proof (split_not_nil sep t). destruct (split sep t); [congruence|].
  reflexivity.
Qed.

Lemma hd_split_before sep s :
  before_first sep s (hd EmptyString (split sep s)).
Proof.
  induction s as [|c t IH].
  - simpl. split; [exact I | left; reflexivity].
  - rewrite hd_split_cons. destruct (Ascii.eqb_spec c sep) as [->|Hne].
    + split; [exact I|]. right. exists t. reflexivity.
    + set (p := hd EmptyString (split sep t)) in *.
      destruct IH as [Hfree [Heq|[q Heq]]].
      * split; [split; assumption|]. left. rewrite Heq at 1. reflexivity.
      * split; [split; assumption|]. right. exists q. rewrite Heq at 1.
        reflexivity.
Qed.

Lemma before_first_unique sep s path :
  before_first sep s path -> path = hd EmptyString (split sep s).
Proof.
  revert s. induction path as [|c p IH]; intros s [Hfree Hs].
  - destruct Hs as [->|[q ->]]; [reflexivity|].
    simpl. rewrite Ascii.eqb_refl. reflexivity.
  - destruct Hfree as [Hne Hfree].
    assert (Hcons : exists t, s = String c t /\ before_first sep t p).
    { destruct Hs as [->|[q ->]].
      - exists p. split; [reflexivity|]. split; [assumption | left; reflexivity].
      - exists (p +:+ String sep q). split; [reflexivity|].
        split; [assumption | right; eauto]. }
    destruct Hcons as (t & -> & Ht). rewrite hd_split_cons.
    destruct (Ascii.eqb_spec c sep); [contradiction|].
    rewrite <- (IH t Ht). reflexivity.
Qed.

Lemma hd_split_lower s :
  hd EmptyString (split "?" (lower s)) =
  lower (hd EmptyString (split "?" s)).
Proof.
  induction s as [|c t IH]; [reflexivity|].
  change (lower (String c t)) with (String (to_lower c) (lower t)).
  rewrite !hd_split_cons, to_lower_qmark.
  destruct (Ascii.eqb c "?"); [reflexivity|]. simpl. rewrite IH. reflexivity.
Qed.

Lemma endswith_unfold s suffix :
  endswith s suffix =
    if String.eqb s suffix then true
    else match s with
         | EmptyString => false
         | String _ t => endswith t suffix
         end.
Proof. destruct s; reflexivity. Qed.

Lemma endswith_spec s suffix :
  endswith s suffix = true <-> exists stem, s = stem +:+ suffix.
Proof.
  split.
  - induction s as [|c t IH]; rewrite endswith_unfold; intros H.
    + destruct (String.eqb_spec EmptyString suffix) as [Heq|Hne];
        [exists EmptyString; exact Heq | discriminate].
    + destruct (String.eqb_spec (String c t) suffix) as [Heq|Hne];
        [exists EmptyString; exact Heq|].
      destruct (IH H) as [stem ->]. exists (String c stem). reflexivity.
  - intros [stem ->]. induction stem as [|c stem IH].
    + change (EmptyString +:+ suffix) with suffix.
      rewrite endswith_unfold, String.eqb_refl. reflexivity.
    + change (String c stem +:+ suffix) with (String c (stem +:+ suffix)).
      rewrite endswith_unfold.
      destruct (String.eqb (String c (stem +:+ suffix)) suffix);
        [reflexivity | exact IH].
Qed.

Lemma image_suffixes_lower ext : In ext IMAGE_SUFFIXES -> lower ext = ext.
Proof.
  unfold IMAGE_SUFFIXES. simpl.
  intros H; repeat (destruct H as [<-|H]; [reflexivity|]); contradiction.
Qed.

Lemma is_direct_image_str s :
  _is_direct_image (VStr s) =
    negb (String.eqb s EmptyString) &&
    endswith_any (hd EmptyString (split "?" (lower s))) IMAGE_SUFFIXES.
Proof.
  unfold _is_direct_image, truthy, is_str.
  destruct (String.eqb s EmptyString); reflexivity.
Qed.

Lemma is_direct_image_is_str url :
  _is_direct_image url = true -> exists s, url = VStr s.
Proof.
  unfold _is_direct_image.
  destruct url; try (destruct (negb _); discriminate); eauto.
Qed.

(** C6. [_is_direct_image] answers true exactly for a non-empty string
    whose part before the first ["?"] ends, letter case aside, with one of
    [.png .jpg .jpeg .gif .webp .bmp .svg]; so [https://x.test/logo.PNG] is
    a direct image and [https://x.test/profile?id=1] is not. *)
Theorem is_direct_image_spec :
  (forall url, _is_direct_image url = true <-> direct_image_reference url) /\
  IMAGE_SUFFIXES = [".png"; ".jpg"; ".jpeg"; ".gif"; ".webp"; ".bmp"; ".svg"] /\
  _is_direct_image (VStr "https://x.test/logo.PNG") = true /\
  _is_direct_image (VStr "https://x.test/profile?id=1") = false.
Proof.
  split; [|repeat split; reflexivity].
  intros url. split.
  - intros H. destruct (is_direct_image_is_str url H) as [s ->].
    rewrite is_direct_image_str in H. apply andb_true_iff in H.
    destruct H as [Hne H]. apply negb_true_iff in Hne.
    unfold endswith_any in H. apply existsb_exists in H.
    destruct H as (ext & Hext & H). rewrite hd_split_lower in H.
    apply endswith_spec in H. destruct H as [stem H].
    apply lower_app_inv in H. destruct H as (stem' & tail & Hp & _ & Ht).
    exists s, (hd EmptyString (split "?" s)), ext.
    split; [reflexivity|]. split.
    { intros ->. discriminate. }
    split; [apply hd_split_before|]. split; [exact Hext|].
    exists stem', tail. split; [exact Hp|].
    rewrite (image_suffixes_lower ext Hext). exact Ht.
  - intros (s & path & ext & -> & Hne & Hpath & Hext & stem & tail & -> & Ht).
    rewrite is_direct_image_str. apply andb_true_iff. split.
    { apply negb_true_iff. destruct (String.eqb_spec s EmptyString); congruence. }
    unfold endswith_any. apply existsb_exists. exists ext. split; [exact Hext|].
    rewrite hd_split_lower, <- (before_first_unique _ _ _ Hpath), lower_app.
    apply endswith_spec. exists (lower stem).
    rewrite Ht, (image_suffixes_lower ext Hext). reflexivity.
Qed.

(** ** Popups and icons *)

Lemma is_direct_image_truthy url :
  truthy url && _is_direct_image url = _is_direct_image url.
Proof.
  unfold _is_direct_image. destruct (truthy url); reflexivity.
Qed.

Lemma build_popup_html_region str_compound r :
  exists rest,
    build_popup_html str_compound r =
      Ret (popup_head +:+ popup_image_region r +:+
           nl +:+ "        </div>" +:+ nl +:+ rest).
Proof.
  unfold build_popup_html, popup_image_region.
  set (url := dict_get r "card_image_url" (VStr EmptyString)).
  destruct (_is_direct_image url) eqn:Hd.
  - destruct (is_direct_image_is_str url Hd) as [s Hs]. rewrite Hs in *.
    rewrite Hd. eexists. reflexivity.
  - assert (Hr : match url with
                 | VStr s =>
                     if _is_direct_image (VStr s)
                     then IMG_OPEN +:+ s +:+ IMG_CLOSE else NO_IMAGE
                 | _ => NO_IMAGE
                 end = NO_IMAGE).
    { destruct url; try reflexivity. rewrite Hd. reflexivity. }
    rewrite Hr. eexists. reflexivity.
Qed.

(** C8. The popup is the fixed head of the template, then the image region,
    then the closing tag of the image box and the rest.  The image region is
    an [img] element whose source is [card_image_url] when that value passes
    [_is_direct_image], the very test the icon uses, and the placeholder
    that asks for a direct image URL otherwise; it is an [img] element only
    in the first case. *)
Theorem build_popup_html_image str_compound r :
  let url := dict_get r "card_image_url" (VStr EmptyString) in
  exists region rest,
    build_popup_html str_compound r =
      Ret (popup_head +:+ region +:+ nl +:+ "        </div>" +:+ nl +:+ rest) /\
    (_is_direct_image url = true ->
     exists s, url = VStr s /\
       region = "<img src=" +:+ dq +:+ s +:+ dq +:+ " alt=" +:+ dq +:+
                "office" +:+ dq +:+ " style=" +:+ dq +:+
                "max-width:100%; max-height:140px; display:block;" +:+ dq +:+
                " />") /\
    (_is_direct_image url = false ->
     region = "<div style=" +:+ dq +:+ "color:#999;" +:+ dq +:+
              ">Sem imagem (use URL direta de imagem)</div>") /\
    ((exists s tail, region = "<img src=" +:+ dq +:+ s +:+ tail) <->
     _is_direct_image url = true).
Proof.
  intros url. destruct (build_popup_html_region str_compound r) as [rest H].
  exists (popup_image_region r), rest. split; [exact H|].
  unfold popup_image_region. fold url.
  assert (Hno : forall s tail, NO_IMAGE <> "<img src=" +:+ dq +:+ s +:+ tail).
  { intros s tail Heq. vm_compute in Heq. discriminate. }
  split; [|split; [|split]].
  - intros Hd. destruct (is_direct_image_is_str url Hd) as [s Hs].
    rewrite Hs in *. rewrite Hd. exists s. split; [reflexivity|].
    unfold IMG_OPEN, IMG_CLOSE. rewrite !append_assoc. reflexivity.
  - intros Hd. destruct url; try reflexivity. rewrite Hd. reflexivity.
  - intros (s & tail & Heq). destruct url as [| | | |u| |];
      try (exfalso; eapply Hno; exact Heq).
    destruct (_is_direct_image (VStr u)); [reflexivity|].
    exfalso; eapply Hno; exact Heq.
  - intros Hd. destruct (is_direct_image_is_str url Hd) as [s Hs].
    rewrite Hs in *. rewrite Hd. exists s. eexists.
    unfold IMG_OPEN. rewrite !append_assoc. reflexivity.
Qed.

(** C7. Whatever the url and the diameter, [build_round_logo_divicon]
    returns an icon of size (diameter, diameter), anchored at
    (diameter // 2, diameter // 2), whose markup is a box of diameter by
    diameter pixels with a 50% border radius.  When the url is a direct
    image reference the box clips its overflow and holds an [img] of that
    url; otherwise the box is filled with the fixed colour [#c4c4c4] and the
    markup is the one an absent url gets. *)
Theorem build_round_logo_divicon_spec str_compound url d :
  let icon := build_round_logo_divicon str_compound url d in
  icon_size icon = (d, d) /\
  icon_anchor icon = (d `div` 2, d `div` 2) /\
  contains ("width:" +:+ of_int d +:+ "px;height:" +:+ of_int d +:+
            "px;border-radius:50%;") (icon_html icon) /\
  (_is_direct_image url = true ->
   exists s, url = VStr s /\
     contains "overflow:hidden;" (icon_html icon) /\
     contains ("<img src=" +:+ dq +:+ s +:+ dq) (icon_html icon)) /\
  (_is_direct_image url = false ->
   contains "background:#c4c4c4;" (icon_html icon) /\
   icon_html icon = icon_html (build_round_logo_divicon str_compound VNone d)).
Proof.
  intros icon. subst icon. unfold build_round_logo_divicon.
  rewrite is_direct_image_truthy. simpl icon_size. simpl icon_anchor.
  simpl icon_html. split; [reflexivity|]. split; [reflexivity|].
  split; [|split].
  - destruct (_is_direct_image url);
      exists (nl +:+ "        <div style=" +:+ dq); eexists;
      rewrite !append_assoc; reflexivity.
  - intros Hd. rewrite Hd. destruct (is_direct_image_is_str url Hd) as [s ->].
    exists s. split; [reflexivity|]. split.
    + exists (nl +:+ "        <div style=" +:+ dq +:+ "width:" +:+ of_int d +:+
              "px;height:" +:+ of_int d +:+ "px;border-radius:50%;" +:+ nl +:+
              "                    ").
      eexists. rewrite !append_assoc. reflexivity.
    + exists (nl +:+ "        <div style=" +:+ dq +:+ "width:" +:+ of_int d +:+
              "px;height:" +:+ of_int d +:+ "px;border-radius:50%;" +:+ nl +:+
              "                    overflow:hidden; box-shadow:0 0 0 2px rgba(0,0,0,0.12), 0 6px 14px rgba(0,0,0,0.2);" +:+
              dq +:+ ">" +:+ nl +:+ "          ").
      eexists. rewrite !append_assoc. reflexivity.
  - intros Hd. rewrite Hd. split; [|reflexivity].
    exists (nl +:+ "        <div style=" +:+ dq +:+ "width:" +:+ of_int d +:+
            "px;height:" +:+ of_int d +:+ "px;border-radius:50%;" +:+ nl +:+
            "                    ").
    eexists. rewrite !append_assoc. reflexivity.
Qed.

(** ** Markers *)

Lemma build_popup_html_returns str_compound r :
  exists html, build_popup_html str_compound r = Ret html.
Proof.
  destruct (build_popup_html_region str_compound r) as [rest H]. eauto.
Qed.

Lemma validate_location_floats a b :
  validate_location (VFloat a) (VFloat b) =
    if is_nan a || is_nan b then Raise ValueError else Ret (a, b).
Proof.
  unfold validate_location, check_coordinate. simpl.
  destruct (is_nan a), (is_nan b); reflexivity.
Qed.

Lemma nan_free_floats r lat lon :
  r !! "latitude" = Some (VFloat lat) ->
  r !! "longitude" = Some (VFloat lon) ->
  nan_free r = negb (is_nan lat || is_nan lon).
Proof.
  intros Hlat Hlon. unfold nan_free, nan_at. rewrite Hlat, Hlon.
  destruct (is_nan lat), (is_nan lon); reflexivity.
Qed.

(** A turn of the marker loop on a record with float coordinates. *)
Lemma add_marker_floats str_compound h size l m lat lon :
  deref h l !! "latitude" = Some (VFloat lat) ->
  deref h l !! "longitude" = Some (VFloat lon) ->
  if nan_free (deref h l)
  then exists mk,
         add_marker str_compound h size l m = Ret (m ++ [mk]) /\
         marker_location mk = (lat, lon)
  else add_marker str_compound h size l m = Raise ValueError.
Proof.
  intros Hlat Hlon. rewrite (nan_free_floats _ _ _ Hlat Hlon).
  unfold add_marker, getitem.
  destruct (build_popup_html_returns str_compound (deref h l)) as [html ->].
  rewrite Hlat, Hlon. simpl. rewrite validate_location_floats.
  destruct (is_nan lat || is_nan lon); simpl; [reflexivity|].
  eexists. split; reflexivity.
Qed.




(** The marker loop on records with float coordinates returns exactly when
    none of them has a NaN coordinate. *)
Lemma add_markers_floats str_compound h size valids : forall m,
  (forall l, l ∈ valids -> has_float_coordinates (deref h l)) ->
  if forallb (fun l => nan_free (deref h l)) valids
  then exists mks,
         add_markers str_compound h size valids m = Ret (m ++ mks) /\
         length mks = length valids
  else add_markers str_compound h size valids m = Raise ValueError.
Proof.
  induction valids as [|l rest IH]; intros m H; simpl.
  - exists []. rewrite app_nil_r. split; reflexivity.
  - destruct (H l) as (lat & lon & Hlat & Hlon); [left|].
    pose proof (add_marker_floats str_compound h size l m lat lon Hlat Hlon)
      as Hstep.
    destruct (nan_free (deref h l)); simpl.
    + destruct Hstep as (mk & -> & _). simpl.
      specialize (IH (m ++ [mk])).
      destruct (forallb (fun l0 => nan_free (deref h l0)) rest).
      * destruct IH as (mks & -> & Hlen);
          [intros l' Hl'; apply H; right; exact Hl'|].
        exists (mk :: mks). rewrite <- app_assoc. simpl. auto.
      * apply IH. intros l' Hl'. apply H. right. exact Hl'.
    + rewrite Hstep. reflexivity.
Qed.




(** ** The theorems at work on sample data *)

(** One valid record and one record without [contact]: one valid item, one
    error, filed under item 2. *)
Lemma validate_records_count_witness :
  (length [0%nat] + length ["Item 2: faltando campos contact"])%nat
    = length [0; 1]%nat /\
  exists flags details,
    length flags = length [0; 1]%nat /\
    length details = length (rejected_items 1 flags) /\
    [0%nat] = accepted flags [0; 1]%nat /\
    ["Item 2: faltando campos contact"]
      = zip_with item_error (rejected_items 1 flags) details.
Proof.
  apply (validate_records_count
           (Samples.heap_of [Samples.lisbon; Samples.no_contact]) [0; 1]%nat
           [0%nat] ["Item 2: faltando campos contact"]
           (Samples.heap_after
              (Samples.heap_of [Samples.lisbon; Samples.no_contact])
              [0; 1]%nat)).
  vm_compute. reflexivity.
Defined.

(** A latitude ["not-a-number"] on an otherwise complete record. *)
Lemma validate_step_messages_witness :
  exists h',
    validate_step 1 0%nat
      (VState (Samples.heap_of [Samples.not_a_number]) [] [])
    = Ret (VState h' ["Item 1: latitude/longitude inválidas"] []).
Proof.
  destruct (validate_step_messages 1 0%nat
              (VState (Samples.heap_of [Samples.not_a_number]) [] []))
    as (_ & _ & H).
  - vm_compute. reflexivity.
  - destruct H as [h' H].
    + vm_compute. reflexivity.
    + vm_compute. reflexivity.
    + exists h'. exact H.
Defined.

Lemma validate_records_float_coordinates_witness :
  exists vlat lat vlon lon,
    deref (Samples.heap_of [Samples.lisbon]) 0%nat !! "latitude" = Some vlat /\
    py_float vlat = Ret lat /\
    deref (Samples.heap_of [Samples.lisbon]) 0%nat !! "longitude" = Some vlon /\
    py_float vlon = Ret lon /\
    deref (Samples.heap_after (Samples.heap_of [Samples.lisbon]) [0%nat]) 0%nat
      !! "latitude" = Some (VFloat lat) /\
    deref (Samples.heap_after (Samples.heap_of [Samples.lisbon]) [0%nat]) 0%nat
      !! "longitude" = Some (VFloat lon).
Proof.
  apply (validate_records_float_coordinates
           (Samples.heap_of [Samples.lisbon]) [0%nat] [0%nat] []).
  - vm_compute. reflexivity.
  - apply list_elem_of_here.
Defined.

(** Offices at (10, 20) and (20, 40): the centre is (15, 30). *)
Lemma compute_map_center_mean_witness :
  compute_map_center true
    (Samples.heap_of [Samples.office_at 10 20; Samples.office_at 20 40])
    [0; 1]%nat
  = Ret (round_Z 15, round_Z 30).
Proof.
  apply (proj2 compute_map_center_mean true
           (Samples.heap_of [Samples.office_at 10 20; Samples.office_at 20 40])
           0%nat 1%nat).
  - split; vm_compute; reflexivity.
  - split; vm_compute; reflexivity.
Defined.

Lemma is_direct_image_spec_witness :
  direct_image_reference (VStr "https://x.test/logo.PNG").
Proof.
  apply (proj1 (proj1 is_direct_image_spec (VStr "https://x.test/logo.PNG"))).
  vm_compute. reflexivity.
Defined.

Lemma build_round_logo_divicon_spec_witness :
  exists s,
    VStr "https://x.test/logo.PNG" = VStr s /\
    contains "overflow:hidden;"
      (icon_html (build_round_logo_divicon (fun _ => EmptyString)
                    (VStr "https://x.test/logo.PNG") 44)) /\
    contains ("<img src=" +:+ dq +:+ s +:+ dq)
      (icon_html (build_round_logo_divicon (fun _ => EmptyString)
                    (VStr "https://x.test/logo.PNG") 44)).
Proof.
  destruct (build_round_logo_divicon_spec (fun _ => EmptyString)
              (VStr "https://x.test/logo.PNG") 44) as (_ & _ & _ & H & _).
  apply H. vm_compute. reflexivity.
Defined.

Lemma build_popup_html_image_witness :
  exists region rest s,
    build_popup_html (fun _ => EmptyString) Samples.with_card_image =
      Ret (popup_head +:+ region +:+ nl +:+ "        </div>" +:+ nl +:+ rest) /\
    dict_get Samples.with_card_image "card_image_url" (VStr EmptyString)
      = VStr s /\
    region = "<img src=" +:+ dq +:+ s +:+ dq +:+ " alt=" +:+ dq +:+
             "office" +:+ dq +:+ " style=" +:+ dq +:+
             "max-width:100%; max-height:140px; display:block;" +:+ dq +:+
             " />".
Proof.
  destruct (build_popup_html_image (fun _ => EmptyString)
              Samples.with_card_image) as (region & rest & H & Himg & _).
  destruct Himg as (s & Hs & Hr).
  - vm_compute. reflexivity.
  - exists region, rest, s. split; [exact H|]. split; [exact Hs | exact Hr].
Defined.


Lemma validate_records_in_place_witness :
  (forall l, l ∈ [0%nat] ->
     l ∈ [0; 1]%nat /\
     (exists vlat lat vlon lon,
        deref (Samples.heap_of [Samples.lisbon; Samples.no_contact]) l
          !! "latitude" = Some vlat /\ py_float vlat = Ret lat /\
        deref (Samples.heap_of [Samples.lisbon; Samples.no_contact]) l
          !! "longitude" = Some vlon /\ py_float vlon = Ret lon /\
        deref (Samples.heap_after
                 (Samples.heap_of [Samples.lisbon; Samples.no_contact])
                 [0; 1]%nat) l =
          <["longitude" := VFloat lon]>
            (<["latitude" := VFloat lat]>
               (deref (Samples.heap_of [Samples.lisbon; Samples.no_contact]) l))) /\
     (forall k, k <> "latitude" -> k <> "longitude" ->
        deref (Samples.heap_after
                 (Samples.heap_of [Samples.lisbon; Samples.no_contact])
                 [0; 1]%nat) l !! k =
        deref (Samples.heap_of [Samples.lisbon; Samples.no_contact]) l !! k)) /\
  (forall l, l ∉ [0; 1]%nat ->
     Samples.heap_after
       (Samples.heap_of [Samples.lisbon; Samples.no_contact]) [0; 1]%nat !! l =
     Samples.heap_of [Samples.lisbon; Samples.no_contact] !! l).
Proof.
  apply (validate_records_in_place
           (Samples.heap_of [Samples.lisbon; Samples.no_contact]) [0; 1]%nat
           [0%nat] ["Item 2: faltando campos contact"]).
  vm_compute. reflexivity.
Defined.


(** * Further properties of the code *)

(** ** The validator *)

Lemma validate_records_returns_witness :
  exists valids errors h',
    validate_records (Samples.heap_of [Samples.lisbon; Samples.no_contact])
      [0; 1]%nat = Ret (valids, errors, h').
Proof.
  apply validate_records_returns. intros l Hl.
  apply elem_of_cons in Hl. destruct Hl as [->|Hl]; [vm_compute; reflexivity|].
  apply list_elem_of_singleton in Hl. subst l. vm_compute. reflexivity.
Defined.

(** X2. What a turn of the loop does to the caller's record once nothing is
    missing.  When [float] fails on the latitude the heap is left alone.
    When it succeeds on the latitude and fails on the longitude the record
    is rejected with the invalid-coordinate message, and yet its latitude
    has already been overwritten with the float.  When both succeed both are
    overwritten and the record is kept. *)
Theorem validate_step_coercion i l st vlat vlon :
  missing_fields (deref (st_heap st) l) = Ret [] ->
  deref (st_heap st) l !! "latitude" = Some vlat ->
  deref (st_heap st) l !! "longitude" = Some vlon ->
  validate_step i l st =
    Ret (match py_float vlat, py_float vlon with
         | Raise _, _ =>
             VState (st_heap st) (st_errors st ++ [invalid_message i])
               (st_valids st)
         | Ret lat, Raise _ =>
             VState (setitem (st_heap st) l "latitude" (VFloat lat))
               (st_errors st ++ [invalid_message i]) (st_valids st)
         | Ret lat, Ret lon =>
             VState (setitem (setitem (st_heap st) l "latitude" (VFloat lat))
                       l "longitude" (VFloat lon))
               (st_errors st) (st_valids st ++ [l])
         end).
Proof.
  intros Hm Hlat Hlon. unfold validate_step. rewrite Hm. simpl.
  unfold coerce_coordinates, getitem. rewrite Hlat. simpl.
  destruct (py_float vlat) as [lat|e]; [|reflexivity].
  rewrite deref_setitem_eq, lookup_insert_ne, Hlon by discriminate. simpl.
  destruct (py_float vlon) as [lon|e]; reflexivity.
Qed.

Lemma validate_step_coercion_witness :
  validate_step 1 0%nat
    (VState (Samples.heap_of
               [<["longitude" := VStr "west"]> Samples.lisbon]) [] [])
  = Ret (VState
           (setitem (Samples.heap_of
                       [<["longitude" := VStr "west"]> Samples.lisbon])
              0%nat "latitude"
              (VFloat (S754_finite false 5449679245341517 (-47))))
           ["Item 1: latitude/longitude inválidas"] []).
Proof.
  apply (validate_step_coercion 1 0%nat
           (VState (Samples.heap_of
                      [<["longitude" := VStr "west"]> Samples.lisbon]) [] [])
           (VStr "38.7223") (VStr "west")); vm_compute; reflexivity.
Defined.

Lemma contains_here (frag rest : string) : contains frag (frag +:+ rest).
Proof. exists EmptyString, rest. reflexivity. Qed.

Lemma contains_refl (frag : string) : contains frag frag.
Proof.
  exists EmptyString, EmptyString. induction frag as [|c t IH]; [reflexivity|].
  change (String c t = String c (EmptyString +:+ t +:+ EmptyString)).
  f_equal. exact IH.
Qed.

Lemma contains_app_r (frag a b : string) :
  contains frag b -> contains frag (a +:+ b).
Proof.
  intros (pre & post & ->). exists (a +:+ pre), post.
  rewrite append_assoc. reflexivity.
Qed.

Lemma contains_app_l (frag a b : string) :
  contains frag a -> contains frag (a +:+ b).
Proof.
  intros (pre & post & ->). exists pre, (post +:+ b).
  rewrite !append_assoc. reflexivity.
Qed.

Lemma join_contains sep parts f :
  f ∈ parts -> contains f (join sep parts).
Proof.
  induction parts as [|p ps IH]; intros Hf; [apply elem_of_nil in Hf; contradiction|].
  apply elem_of_cons in Hf.
  destruct ps as [|q qs].
  - destruct Hf as [->|Hf]; [apply contains_refl|].
    apply elem_of_nil in Hf. contradiction.
  - change (join sep (p :: q :: qs)) with (p +:+ sep +:+ join sep (q :: qs)).
    destruct Hf as [->|Hf]; [apply contains_here|].
    apply contains_app_r, contains_app_r, IH, Hf.
Qed.

Lemma missing_loop_grows r fields : forall acc ms,
  missing_loop r fields acc = Ret ms ->
  (forall x, x ∈ acc -> x ∈ ms) /\
  (forall x, x ∈ ms -> x ∈ acc \/ x ∈ fields) /\
  (forall f, f ∈ fields -> field_missing r f = Ret true -> f ∈ ms).
Proof.
  induction fields as [|g rest IH]; intros acc ms H; simpl in H.
  - inversion H; subst. repeat split; auto.
    intros f Hf. apply elem_of_nil in Hf. contradiction.
  - bind_inv H. apply IH in H. destruct H as (Hacc & Hsub & Hmem).
    repeat split.
    + intros x Hx. apply Hacc. destruct a; [apply elem_of_app; left|]; exact Hx.
    + intros x Hx. destruct (Hsub x Hx) as [Hx'|Hx'].
      * destruct a; [|left; exact Hx'].
        apply elem_of_app in Hx'. destruct Hx' as [Hx'|Hx']; [left; exact Hx'|].
        apply list_elem_of_singleton in Hx'. subst x. right. left.
      * right. right. exact Hx'.
    + intros f Hf Hmiss. apply elem_of_cons in Hf. destruct Hf as [->|Hf].
      * rewrite Hmiss in Ha. inversion Ha; subst a.
        apply Hacc, elem_of_app. right. left.
      * apply Hmem; assumption.
Qed.

(** X4. When a required key is absent from a record and the turn of the
    loop returns, the record is rejected without being touched, and the one
    message appended contains the key's name. *)
Theorem validate_step_names_absent_key i l st st' f :
  f ∈ REQUIRED ->
  deref (st_heap st) l !! f = None ->
  validate_step i l st = Ret st' ->
  exists e,
    st' = VState (st_heap st) (st_errors st ++ [e]) (st_valids st) /\
    contains ("Item " +:+ of_int i +:+ ": faltando campos ") e /\
    contains f e.
Proof.
  intros Hf Habs H. unfold validate_step in H. bind_inv H.
  assert (Hin : f ∈ a).
  { unfold missing_fields in Ha. bind_inv Ha.
    apply missing_loop_grows in Ha0. destruct Ha0 as (_ & _ & Hmem).
    assert (Hfm : f ∈ a0).
    { apply Hmem; [exact Hf|]. unfold field_missing.
      rewrite has_key_lookup, Habs. reflexivity. }
    inversion Ha; subst a.
    destruct (negb _ && negb _); [apply elem_of_app; left|]; exact Hfm. }
  destruct a as [|g ms]; [apply elem_of_nil in Hin; contradiction|].
  inversion H; subst st'. eexists. split; [reflexivity|]. split.
  - unfold missing_message. rewrite <- !append_assoc. apply contains_here.
  - unfold missing_message. apply contains_app_r, contains_app_r, contains_app_r.
    apply join_contains, Hin.
Qed.

Lemma validate_step_names_absent_key_witness :
  exists e,
    Ret (VState (Samples.heap_of [Samples.no_contact])
           ["Item 1: faltando campos contact"] [])
    = Ret (VState (Samples.heap_of [Samples.no_contact]) ([] ++ [e]) []) /\
    contains ("Item " +:+ of_int 1 +:+ ": faltando campos ") e /\
    contains "contact" e.
Proof.
  destruct (validate_step_names_absent_key 1 0%nat
              (VState (Samples.heap_of [Samples.no_contact]) [] [])
              (VState (Samples.heap_of [Samples.no_contact])
                 ["Item 1: faltando campos contact"] [])
              "contact") as (e & He & H1 & H2).
  - unfold REQUIRED. apply list_elem_of_In. simpl. tauto.
  - vm_compute. reflexivity.
  - vm_compute. reflexivity.
  - exists e. split; [exact (f_equal Ret He)|]. split; assumption.
Defined.

(** X5. The address is checked by key presence alone: when the missing
    names of a record are computed, [adress/address] is among them exactly
    when both keys are absent, whatever value a present key holds, null
    included. *)
Theorem missing_fields_address r ms :
  missing_fields r = Ret ms ->
  ("adress/address" ∈ ms <-> r !! "adress" = None /\ r !! "address" = None).
Proof.
  intros H. unfold missing_fields in H. bind_inv H.
  apply missing_loop_grows in Ha. destruct Ha as (_ & Hsub & _).
  assert (Hno : "adress/address" ∉ a).
  { intros Hin. destruct (Hsub _ Hin) as [Hn|Hr].
    - apply elem_of_nil in Hn. contradiction.
    - apply list_elem_of_In in Hr. simpl in Hr.
      repeat (destruct Hr as [Hr|Hr]; [discriminate|]). contradiction. }
  rewrite !has_key_lookup in H. inversion H; subst ms. clear H.
  destruct (r !! "adress"), (r !! "address"); simpl; split;
    try (intros Hin; contradiction); try (intros [? ?]; discriminate).
  - intros _. split; reflexivity.
  - intros _. apply elem_of_app. right. left.
Qed.

Lemma missing_fields_address_witness :
  "adress/address" ∈ ["adress/address"] <->
  delete "adress" Samples.lisbon !! "adress" = None /\
  delete "adress" Samples.lisbon !! "address" = None.
Proof.
  apply (missing_fields_address (delete "adress" Samples.lisbon)).
  vm_compute. reflexivity.
Defined.

(** ** The map centre and the empty list *)

Lemma column_raises_KeyError h key recs e :
  column h key recs = Raise e -> e = KeyError.
Proof.
  induction recs as [|l rest IH]; simpl; [discriminate|].
  unfold getitem. destruct (deref h l !! key); simpl.
  - destruct (column h key rest); simpl; [discriminate|].
    intros H. inversion H; subst. apply IH. reflexivity.
  - intros H. inversion H. reflexivity.
Qed.

Lemma column_absent h key recs l :
  l ∈ recs -> deref h l !! key = None -> column h key recs = Raise KeyError.
Proof.
  induction recs as [|l' rest IH]; intros Hl Habs.
  - apply elem_of_nil in Hl. contradiction.
  - simpl. unfold getitem. apply elem_of_cons in Hl.
    destruct Hl as [<-|Hl]; [rewrite Habs; reflexivity|].
    destruct (deref h l' !! key); [|reflexivity]. simpl.
    rewrite (IH Hl Habs). reflexivity.
Qed.

(** X6. [compute_map_center] raises [ZeroDivisionError] on the empty list,
    and [KeyError] as soon as one record of the list lacks [latitude] or
    [longitude], whatever the other records hold. *)
Theorem compute_map_center_raises compensated h :
  compute_map_center compensated h [] = Raise ZeroDivisionError /\
  forall recs l,
    l ∈ recs ->
    deref h l !! "latitude" = None \/ deref h l !! "longitude" = None ->
    compute_map_center compensated h recs = Raise KeyError.
Proof.
  split; [reflexivity|]. intros recs l Hl [Habs|Habs]; unfold compute_map_center.
  - rewrite (column_absent _ _ _ _ Hl Habs). reflexivity.
  - destruct (column h "latitude" recs) as [lats|e] eqn:Hlat; simpl.
    + rewrite (column_absent _ _ _ _ Hl Habs). reflexivity.
    + apply column_raises_KeyError in Hlat. subst e. reflexivity.
Qed.

Lemma compute_map_center_raises_witness :
  compute_map_center true
    (Samples.heap_of [Samples.office_at 10 20;
                      delete "longitude" Samples.lisbon]) [0; 1]%nat
  = Raise KeyError.
Proof.
  apply (proj2 (compute_map_center_raises true
                  (Samples.heap_of [Samples.office_at 10 20;
                                    delete "longitude" Samples.lisbon]))
           [0; 1]%nat 1%nat).
  - apply list_elem_of_In. simpl. tauto.
  - right. vm_compute. reflexivity.
Defined.

(** ** Image references: query strings and letter case *)

Lemma lower_idempotent s : lower (lower s) = lower s.
Proof.
  induction s as [|c t IH]; [reflexivity|]. simpl. rewrite IH. f_equal.
  destruct c as [[] [] [] [] [] [] [] []]; reflexivity.
Qed.

Lemma lower_empty s : String.eqb (lower s) EmptyString = String.eqb s EmptyString.
Proof. destruct s; reflexivity. Qed.

(** X7. [_is_direct_image] does not look at the query string or at the
    letter case: lower-casing a url, or appending ["?"] and any text to a
    url that has no ["?"], does not change the answer. *)
Theorem is_direct_image_invariant :
  (forall s, _is_direct_image (VStr (lower s)) = _is_direct_image (VStr s)) /\
  (forall p q,
     free_of "?" p ->
     _is_direct_image (VStr (p +:+ String "?" q)) = _is_direct_image (VStr p)).
Proof.
  split.
  - intros s. rewrite !is_direct_image_str, lower_idempotent, lower_empty.
    reflexivity.
  - intros p q Hp. rewrite !is_direct_image_str, !hd_split_lower.
    rewrite <- (before_first_unique "?" (p +:+ String "?" q) p)
      by (split; [exact Hp | right; eauto]).
    rewrite <- (before_first_unique "?" p p)
      by (split; [exact Hp | left; reflexivity]).
    destruct p as [|c p]; [reflexivity|]. reflexivity.
Qed.

Lemma is_direct_image_invariant_witness :
  _is_direct_image (VStr ("https://x.test/logo.png" +:+ String "?" "v=2"))
  = _is_direct_image (VStr "https://x.test/logo.png").
Proof.
  apply (proj2 is_direct_image_invariant "https://x.test/logo.png" "v=2").
  vm_compute. repeat split; discriminate.
Defined.

(** ** The icon anchor *)

(** X10. For every size the sidebar slider offers (24 to 72 in steps of 2)
    the icon's anchor is its exact centre: twice the anchor is the
    diameter, on both axes, and the icon is a square of that diameter. *)
Theorem icon_anchor_centred str_compound url d :
  icon_size_choice d = true ->
  let icon := build_round_logo_divicon str_compound url d in
  icon_size icon = (d, d) /\
  2 * (icon_anchor icon).1 = d /\ 2 * (icon_anchor icon).2 = d /\
  12 <= (icon_anchor icon).1 <= 36.
Proof.
  unfold icon_size_choice, slider. intros H.
  apply andb_true_iff in H. destruct H as [H Hmod].
  apply andb_true_iff in H. destruct H as [Hlo Hhi].
  apply Z.leb_le in Hlo, Hhi. apply Z.eqb_eq in Hmod.
  simpl. assert (Hd : 2 * (d `div` 2) = d).
  { pose proof (Z.div_mod (d - 24) 2 ltac:(lia)) as Hdm. rewrite Hmod in Hdm.
    pose proof (Z.div_mod d 2 ltac:(lia)) as Hd2.
    pose proof (Z.mod_pos_bound d 2 ltac:(lia)) as Hb. lia. }
  repeat split; lia.
Qed.

Lemma icon_anchor_centred_witness :
  icon_size (build_round_logo_divicon (fun _ => EmptyString) VNone 44)
    = (44, 44) /\
  2 * (icon_anchor (build_round_logo_divicon (fun _ => EmptyString) VNone 44)).1
    = 44 /\
  2 * (icon_anchor (build_round_logo_divicon (fun _ => EmptyString) VNone 44)).2
    = 44 /\
  12 <= (icon_anchor
           (build_round_logo_divicon (fun _ => EmptyString) VNone 44)).1 <= 36.
Proof.
  apply (icon_anchor_centred (fun _ => EmptyString) VNone 44).
  vm_compute. reflexivity.
Defined.

(** ** The text of a popup *)

Lemma contains_chain3 (a b c rest : string) :
  contains (a +:+ b +:+ c) (a +:+ b +:+ c +:+ rest).
Proof. exists EmptyString, rest. rewrite !append_assoc. reflexivity. Qed.

Lemma contains_chain5 (a b c d e rest : string) :
  contains (a +:+ b +:+ c +:+ d +:+ e) (a +:+ b +:+ c +:+ d +:+ e +:+ rest).
Proof. exists EmptyString, rest. rewrite !append_assoc. reflexivity. Qed.

Lemma contains_chain12 (sp a b c d e f g h i j k l rest : string) :
  contains (a +:+ b +:+ c +:+ d +:+ e +:+ f +:+ g +:+ h +:+ i +:+ j +:+ k +:+ l)
    ((sp +:+ a) +:+ b +:+ c +:+ d +:+ e +:+ f +:+ g +:+ h +:+ i +:+ j +:+ k +:+
     l +:+ rest).
Proof. exists sp, rest. rewrite !append_assoc. reflexivity. Qed.

Ltac find_fragment here :=
  first [ here | simple apply contains_app_r; find_fragment here ].

Ltac chain3 := exact (contains_chain3 _ _ _ _).
Ltac chain5 := exact (contains_chain5 _ _ _ _ _ _).
Ltac chain12 :=
  exact (contains_chain12 "            " "<a href=" _ _ _ _ _ _ _ _ _ _ _ _).

Lemma build_popup_html_eq str_compound r html :
  build_popup_html str_compound r = Ret html ->
  exists image,
    html =
      popup_head +:+ image +:+
      popup_tail str_compound
        (dict_get r "city" (VStr EmptyString))
        (dict_get r "region" (VStr EmptyString))
        (dict_get r "nome" (VStr EmptyString))
        (py_or (py_or (dict_get r "adress" VNone) (dict_get r "address" VNone))
               (VStr EmptyString))
        (dict_get r "contact" (VStr EmptyString))
        (dict_get r "CapcoHub" (VStr EmptyString)).
Proof.
  unfold build_popup_html. intros H. bind_inv H. inversion H. eauto.
Qed.

(** X8. Whatever a record holds, its popup carries the texts of [city] and
    [region] on one line, of [nome], of [contact], and a link to [CapcoHub]
    that opens in a new tab with [rel="noopener noreferrer"].  The text of a
    string field is the string itself, character for character (nothing is
    escaped), and the text of an absent field is empty. *)
Theorem build_popup_html_fields str_compound r html :
  build_popup_html str_compound r = Ret html ->
  let text k := py_str str_compound (dict_get r k (VStr EmptyString)) in
  contains (">" +:+ text "city" +:+ " · " +:+ text "region" +:+ "</div>") html /\
  contains (">" +:+ text "nome" +:+ "</div>") html /\
  contains (">☎️ " +:+ text "contact" +:+ "</div>") html /\
  contains ("<a href=" +:+ dq +:+ text "CapcoHub" +:+ dq +:+ " target=" +:+
            dq +:+ "_blank" +:+ dq +:+ " rel=" +:+ dq +:+
            "noopener noreferrer" +:+ dq) html /\
  (forall k s, r !! k = Some (VStr s) -> text k = s) /\
  (forall k, r !! k = None -> text k = EmptyString).
Proof.
  intros H text. apply build_popup_html_eq in H. destruct H as [image ->].
  subst text. cbv beta.
  split; [|split; [|split; [|split; [|split]]]].
  - apply contains_app_r, contains_app_r. unfold popup_tail.
    find_fragment chain5.
  - apply contains_app_r, contains_app_r. unfold popup_tail.
    find_fragment chain3.
  - apply contains_app_r, contains_app_r. unfold popup_tail.
    find_fragment chain3.
  - apply contains_app_r, contains_app_r. unfold popup_tail.
    find_fragment chain12.
  - intros k s Hk. unfold dict_get. rewrite Hk. reflexivity.
  - intros k Hk. unfold dict_get. rewrite Hk. reflexivity.
Qed.

Lemma build_popup_html_fields_witness :
  exists html,
    build_popup_html (fun _ => EmptyString)
      (<["nome" := VStr "<b>Capco</b>"]> Samples.lisbon) = Ret html /\
    contains (">" +:+ "<b>Capco</b>" +:+ "</div>") html.
Proof.
  destruct (build_popup_html_returns (fun _ => EmptyString)
              (<["nome" := VStr "<b>Capco</b>"]> Samples.lisbon))
    as [html Hhtml].
  exists html. split; [exact Hhtml|].
  destruct (build_popup_html_fields _ _ _ Hhtml) as (_ & Hnome & _ & _ & Hs & _).
  rewrite (Hs "nome" "<b>Capco</b>") in Hnome; [exact Hnome|].
  vm_compute. reflexivity.
Defined.

(** X9. The address line of a popup shows [adress] when that value is
    truthy, otherwise [address] when that one is truthy, and otherwise
    nothing: a null or empty address never prints as text. *)
Theorem build_popup_html_address str_compound r html :
  build_popup_html str_compound r = Ret html ->
  exists shown,
    contains (">📍 " +:+ shown +:+ "</div>") html /\
    (forall a, r !! "adress" = Some a -> truthy a = true ->
       shown = py_str str_compound a) /\
    (forall b,
       (r !! "adress" = None \/
        exists a, r !! "adress" = Some a /\ truthy a = false) ->
       r !! "address" = Some b -> truthy b = true ->
       shown = py_str str_compound b) /\
    ((r !! "adress" = None \/
      exists a, r !! "adress" = Some a /\ truthy a = false) ->
     (r !! "address" = None \/
      exists b, r !! "address" = Some b /\ truthy b = false) ->
     shown = EmptyString).
Proof.
  intros H. apply build_popup_html_eq in H. destruct H as [image ->].
  exists (py_str str_compound (popup_address r)). split.
  { apply contains_app_r, contains_app_r. unfold popup_tail, popup_address.
    find_fragment chain3. }
  unfold popup_address, py_or, dict_get.
  split; [|split].
  - intros a Ha Ht. rewrite Ha. simpl. rewrite Ht, Ht. reflexivity.
  - intros b Ha Hb Ht.
    assert (Hfirst : truthy (default VNone (r !! "adress")) = false).
    { destruct Ha as [->|(a & -> & Hf)]; [reflexivity | exact Hf]. }
    rewrite Hfirst, Hb. simpl. rewrite Ht. reflexivity.
  - intros Ha Hb.
    assert (Hfirst : truthy (default VNone (r !! "adress")) = false).
    { destruct Ha as [->|(a & -> & Hf)]; [reflexivity | exact Hf]. }
    assert (Hsecond : truthy (default VNone (r !! "address")) = false).
    { destruct Hb as [->|(b & -> & Hf)]; [reflexivity | exact Hf]. }
    rewrite Hfirst, Hsecond. reflexivity.
Qed.

Lemma build_popup_html_address_witness :
  exists html,
    build_popup_html (fun _ => EmptyString)
      (<["adress" := VNone]> (<["address" := VStr "Rua Augusta"]> Samples.lisbon))
      = Ret html /\
    contains (">📍 " +:+ "Rua Augusta" +:+ "</div>") html.
Proof.
  destruct (build_popup_html_returns (fun _ => EmptyString)
              (<["adress" := VNone]>
                 (<["address" := VStr "Rua Augusta"]> Samples.lisbon)))
    as [html Hhtml].
  exists html. split; [exact Hhtml|].
  destruct (build_popup_html_address _ _ _ Hhtml) as (shown & Hc & _ & Hb & _).
  rewrite (Hb (VStr "Rua Augusta")) in Hc; [exact Hc | | |].
  - right. exists VNone. split; vm_compute; reflexivity.
  - vm_compute. reflexivity.
  - reflexivity.
Defined.

(** ** The script: loading, the empty-result guard, the map *)

Lemma obind_Done {A B : Type} (m : outcome A) (k : A -> outcome B) (b : B) :
  obind m k = Done b -> exists a, m = Done a /\ k a = Done b.
Proof. destruct m as [a|e]; simpl; [eauto | discriminate]. Qed.

Lemma lift_Done {A : Type} (m : res A) (a : A) : lift m = Done a <-> m = Ret a.
Proof. destruct m; simpl; split; intros H; inversion H; reflexivity. Qed.

Lemma coerced_has_float_coordinates r0 r :
  coerced r0 r -> has_float_coordinates r.
Proof.
  intros H. destruct (coerced_lookup _ _ H)
    as (_ & lat & _ & lon & _ & _ & _ & _ & Hlat & Hlon).
  exists lat, lon. auto.
Qed.

Lemma lat_coerced_has_float_coordinates r r' :
  has_float_coordinates r -> lat_coerced r r' -> has_float_coordinates r'.
Proof.
  intros (lat & lon & Hlat & Hlon) (v & a & _ & _ & ->).
  exists a, lon. rewrite lookup_insert_eq, lookup_insert_ne by discriminate.
  auto.
Qed.

Lemma validate_step_located i l st st' :
  validate_step i l st = Ret st' -> valids_located st -> valids_located st'.
Proof.
  intros H Hinv. apply validate_step_heap in H. destruct H as [Hfr Hcase].
  intros l' Hl'. destruct (decide (l' = l)) as [->|Hne].
  - destruct Hcase as [[_ Hc]|[Hv [Hh|Hc]]].
    + eapply coerced_has_float_coordinates, Hc.
    + rewrite Hh. apply Hinv. rewrite <- Hv. exact Hl'.
    + eapply lat_coerced_has_float_coordinates; [|exact Hc].
      apply Hinv. rewrite <- Hv. exact Hl'.
  - rewrite (deref_ext _ _ _ (Hfr l' Hne)). apply Hinv.
    destruct Hcase as [[Hv _]|[Hv _]]; rewrite Hv in Hl'; [|exact Hl'].
    apply elem_of_app in Hl'. destruct Hl' as [Hl'|Hl']; [exact Hl'|].
    apply list_elem_of_singleton in Hl'. contradiction.
Qed.

Lemma validate_step_one_more i l st st' :
  validate_step i l st = Ret st' ->
  (length (st_valids st') + length (st_errors st'))%nat =
  S (length (st_valids st) + length (st_errors st)).
Proof.
  intros H. apply validate_step_cases in H.
  destruct H as [[-> ->]|[-> [d ->]]]; rewrite length_app; simpl; lia.
Qed.

Lemma validate_item_effect i it st st' :
  validate_item i it st = Done st' ->
  (length (st_valids st') + length (st_errors st'))%nat =
    S (length (st_valids st) + length (st_errors st)) /\
  (valids_located st -> valids_located st').
Proof.
  assert (Hother : forall ms : outcome (list string),
    obind ms (fun missing =>
      match missing with
      | _ :: _ =>
          Done (VState (st_heap st)
                  (st_errors st ++ [missing_message i missing]) (st_valids st))
      | [] =>
          Done (VState (st_heap st)
                  (st_errors st ++ [invalid_message i]) (st_valids st))
      end) = Done st' ->
    (length (st_valids st') + length (st_errors st'))%nat =
      S (length (st_valids st) + length (st_errors st)) /\
    (valids_located st -> valids_located st')).
  { intros ms H. apply obind_Done in H. destruct H as (missing & _ & H).
    destruct missing; inversion H; subst st'; simpl;
      (split; [rewrite length_app; simpl; lia | intros Hinv; exact Hinv]). }
  destruct it as [l| | | | | |];
    [|exact (Hother (item_missing_fields _))..].
  simpl. intros H. apply lift_Done in H. split.
  - eapply validate_step_one_more, H.
  - eapply validate_step_located, H.
Qed.

Lemma validate_items_loop_effect items : forall i st st',
  validate_items_loop i items st = Done st' ->
  (length (st_valids st') + length (st_errors st'))%nat =
    (length (st_valids st) + length (st_errors st) + length items)%nat /\
  (valids_located st -> valids_located st').
Proof.
  induction items as [|it rest IH]; intros i st st' H; simpl in H.
  - inversion H; subst. split; [simpl; lia | auto].
  - apply obind_Done in H. destruct H as (st1 & H1 & H).
    apply validate_item_effect in H1. destruct H1 as [Hc1 Hl1].
    apply IH in H. destruct H as [Hc Hl]. split; [simpl; lia | auto].
Qed.

Lemma validate_items_effect h items valids errs h' :
  validate_items h items = Done (valids, errs, h') ->
  (length valids + length errs)%nat = length items /\
  forall l, l ∈ valids -> has_float_coordinates (deref h' l).
Proof.
  unfold validate_items. intros H. apply obind_Done in H.
  destruct H as (st & Hst & H). inversion H; subst.
  apply validate_items_loop_effect in Hst. simpl in Hst.
  destruct Hst as [Hc Hl]. split; [exact Hc|]. apply Hl.
  intros l Hl'. simpl in Hl'. apply elem_of_nil in Hl'. contradiction.
Qed.

Lemma located_exists h ls :
  (forall l, l ∈ ls -> has_float_coordinates (deref h l)) ->
  exists coords, Forall2 (located h) ls coords.
Proof.
  induction ls as [|l rest IH]; intros H.
  - exists []. constructor.
  - destruct (H l) as (lat & lon & Hlat & Hlon); [left|].
    destruct IH as [coords Hc]; [intros l' Hl'; apply H; right; exact Hl'|].
    exists ((lat, lon) :: coords). constructor; [split; assumption | exact Hc].
Qed.

Lemma folium_Map_spec tiles_resolved center zoom tiles :
  folium_Map tiles_resolved center zoom tiles =
    if negb (is_nan center.1) && negb (is_nan center.2) && tiles_resolved tiles
    then Ret (MkFoliumMap center zoom tiles [])
    else Raise ValueError.
Proof.
  unfold folium_Map. rewrite validate_location_floats.
  destruct center as [a b]. simpl.
  destruct (is_nan a), (is_nan b); simpl; try reflexivity.
Qed.

(** Once the validator has returned, the rest of the script can only fail
    in folium's checks. *)
Lemma main_after_validate_items str_compound tiles_resolved compensated
  h items valids errs h' tile zoom size :
  validate_items h items = Done (valids, errs, h') ->
  (valids = [] /\
   main str_compound tiles_resolved compensated (Done (DocList h items))
     tile zoom size = Done (NoOfficesPage errs) /\
   length errs = length items) \/
  (valids <> [] /\
   exists center,
     compute_map_center compensated h' valids = Ret center /\
     if folium_accepts tiles_resolved center tile h' valids
     then exists markers,
            main str_compound tiles_resolved compensated
              (Done (DocList h items)) tile zoom size
              = Done (MapPage errs (MkFoliumMap center zoom tile markers)) /\
            length markers = length valids /\
            (length markers + length errs)%nat = length items
     else main str_compound tiles_resolved compensated
            (Done (DocList h items)) tile zoom size
          = Failed (Builtin ValueError)).
Proof.
  intros H. pose proof (validate_items_effect _ _ _ _ _ H) as [Hc Hl].
  unfold main. simpl. rewrite H. simpl.
  destruct valids as [|l0 ls] eqn:Hv.
  - left. repeat split. simpl in Hc. exact Hc.
  - right. split; [discriminate|]. rewrite <- Hv in *.
    destruct (located_exists h' valids Hl) as [coords Hcoords].
    destruct (compute_map_center_floats compensated h' valids coords)
      as (slat & slon & _ & _ & _ & Hcenter).
    { rewrite Hv. discriminate. }
    { exact Hcoords. }
    rewrite Hcenter. eexists. split; [reflexivity|].
    cbn [lift obind]. rewrite folium_Map_spec. unfold folium_accepts.
    destruct (negb (is_nan _) && negb (is_nan _) && tiles_resolved tile);
      cbn [andb lift obind]; [|reflexivity].
    pose proof (add_markers_floats str_compound h' size valids [] Hl) as Hm.
    cbn [map_markers].
    destruct (forallb (fun l => nan_free (deref h' l)) valids).
    + destruct Hm as (mks & -> & Hlen). cbn [lift obind app].
      exists mks. repeat split; [exact Hlen | lia].
    + rewrite Hm. reflexivity.
Qed.

(** X11. Once validation has returned [(valids, errs)], the script cannot
    raise anything but the [ValueError] of folium.  With no valid record it
    stops on the no-valid-offices page, every item having its error.
    Otherwise the centre is computed (the guard of line 138 keeps the mean
    from dividing by zero); when folium accepts the centre, the tile name
    and every valid record's coordinates the page shows a map centred there
    with one marker per valid record, markers and errors together accounting
    for every item; when it does not, a NaN being involved or the tile name
    unknown, the script ends with [ValueError]. *)
Theorem main_pages str_compound tiles_resolved compensated h items valids errs
  h' tile zoom size :
  validate_items h items = Done (valids, errs, h') ->
  (valids = [] ->
   main str_compound tiles_resolved compensated (Done (DocList h items))
     tile zoom size = Done (NoOfficesPage errs) /\
   length errs = length items) /\
  (valids <> [] ->
   exists center,
     compute_map_center compensated h' valids = Ret center /\
     if folium_accepts tiles_resolved center tile h' valids
     then exists markers,
            main str_compound tiles_resolved compensated
              (Done (DocList h items)) tile zoom size
              = Done (MapPage errs (MkFoliumMap center zoom tile markers)) /\
            length markers = length valids /\
            (length markers + length errs)%nat = length items
     else main str_compound tiles_resolved compensated
            (Done (DocList h items)) tile zoom size
          = Failed (Builtin ValueError)).
Proof.
  intros H.
  destruct (main_after_validate_items str_compound tiles_resolved compensated
              _ _ _ _ _ tile zoom size H)
    as [(Hv & Hm & Hl)|(Hv & center & Hc & Hm)].
  - split; [auto | congruence].
  - split; [congruence|]. intros _. exists center. auto.
Qed.

(** X12. The page shows the load error exactly when opening, parsing or the
    list check of the loader failed.  An exception escapes the script only
    when the validator raised it, or when validation returned some valid
    record and folium refused the map or a marker with [ValueError]. *)
Theorem main_failures str_compound tiles_resolved compensated file tile zoom
  size :
  (forall e,
     main str_compound tiles_resolved compensated file tile zoom size
       = Done (LoadErrorPage e)
     <-> load_offices_from_yaml file = Failed e) /\
  (load_offices_from_yaml file = Failed (Builtin ValueError) <->
   file = Done DocOther \/ file = Failed (Builtin ValueError)) /\
  (forall e,
     main str_compound tiles_resolved compensated file tile zoom size
       = Failed e ->
     exists h items,
       file = Done (DocList h items) /\
       (validate_items h items = Failed e \/
        e = Builtin ValueError /\
        exists valids errs h' center,
          validate_items h items = Done (valids, errs, h') /\
          valids <> [] /\
          compute_map_center compensated h' valids = Ret center /\
          folium_accepts tiles_resolved center tile h' valids = false)).
Proof.
  split; [|split].
  - intros e. destruct file as [[h items|]|e0]; simpl.
    + split; [|discriminate]. intros Hmain. exfalso.
      destruct (validate_items h items) as [[[valids errs] h']|e1] eqn:Hv.
      * destruct (main_after_validate_items str_compound tiles_resolved
                    compensated _ _ _ _ _ tile zoom size Hv)
          as [(_ & Hm & _)|(_ & c & _ & Hm)].
        -- rewrite Hm in Hmain. discriminate.
        -- destruct (folium_accepts tiles_resolved c tile h' valids).
           ++ destruct Hm as (mks & Hm & _). rewrite Hm in Hmain. discriminate.
           ++ rewrite Hm in Hmain. discriminate.
      * unfold main in Hmain. simpl in Hmain. rewrite Hv in Hmain.
        discriminate.
    + split; intros H; inversion H; reflexivity.
    + split; intros H; inversion H; reflexivity.
  - destruct file as [[h items|]|e0]; simpl; split; intros H;
      try discriminate; auto.
    + destruct H as [H|H]; discriminate.
    + right. inversion H. reflexivity.
    + destruct H as [H|H]; inversion H. reflexivity.
  - intros e H. destruct file as [[h items|]|e0]; simpl in H; try discriminate.
    exists h, items. split; [reflexivity|].
    destruct (validate_items h items) as [[[valids errs] h']|e1] eqn:Hv.
    + right.
      destruct (main_after_validate_items str_compound tiles_resolved
                  compensated _ _ _ _ _ tile zoom size Hv)
        as [(_ & Hm & _)|(Hne & c & Hc & Hm)]; [congruence|].
      destruct (folium_accepts tiles_resolved c tile h' valids) eqn:Hacc.
      * destruct Hm as (mks & Hm & _). congruence.
      * rewrite Hm in H. inversion H. split; [reflexivity|].
        exists valids, errs, h', c. auto.
    + left. unfold main in H. simpl in H. rewrite Hv in H. simpl in H.
      inversion H. reflexivity.
Qed.

(** ** Elements of the list that are not mappings *)

Lemma item_has_container it field :
  is_container it = true -> item_has it field = Done (mentions it field).
Proof. destruct it; simpl; try discriminate; reflexivity. Qed.

Lemma item_missing_loop_container it fields : forall acc,
  is_container it = true ->
  item_missing_loop it fields acc =
    if existsb (mentions it) fields then Failed AttributeError
    else Done (acc ++ fields).
Proof.
  induction fields as [|f rest IH]; intros acc Hc; simpl.
  - rewrite app_nil_r. reflexivity.
  - unfold item_field_missing. rewrite (item_has_container _ _ Hc). simpl.
    destruct (mentions it f); simpl; [reflexivity|].
    rewrite IH by exact Hc. rewrite <- app_assoc. reflexivity.
Qed.

(** X13. What a turn of the validator's loop does with an element that is
    not a mapping.  A null, a boolean or a number raises [TypeError].  A
    string or a list in which one of the seven required field names occurs
    (as a substring, as a member) raises [AttributeError].  Any other string
    or list is rejected like a record that lacks all seven fields, with
    [adress/address] added unless one of the two address keys occurs in
    it. *)
Theorem validate_item_not_mapping i it st :
  (forall l, it <> IMapping l) ->
  validate_item i it st =
    if negb (is_container it) then Failed (Builtin TypeError)
    else if existsb (mentions it) REQUIRED then Failed AttributeError
    else Done (VState (st_heap st)
                 (st_errors st ++
                    [missing_message i
                       (REQUIRED ++
                        (if mentions it "adress" || mentions it "address"
                         then [] else ["adress/address"]))])
                 (st_valids st)).
Proof.
  intros Hnm. destruct (is_container it) eqn:Hc; cbn [negb].
  - assert (Hv : validate_item i it st =
              obind (item_missing_fields it) (fun missing =>
                match missing with
                | _ :: _ =>
                    Done (VState (st_heap st)
                            (st_errors st ++ [missing_message i missing])
                            (st_valids st))
                | [] =>
                    Done (VState (st_heap st)
                            (st_errors st ++ [invalid_message i]) (st_valids st))
                end)).
    { destruct it; try discriminate; reflexivity. }
    rewrite Hv. unfold item_missing_fields.
    change (REQUIRED_FOR_MARKER ++ REQUIRED_FOR_CARD) with REQUIRED.
    rewrite (item_missing_loop_container _ _ _ Hc).
    destruct (existsb (mentions it) REQUIRED); [reflexivity|].
    cbn [obind]. rewrite !(item_has_container _ _ Hc). cbn [obind negb].
    destruct (mentions it "adress"); cbn [obind negb orb];
      [rewrite app_nil_r; reflexivity|].
    destruct (mentions it "address"); cbn [negb];
      [rewrite app_nil_r; reflexivity | reflexivity].
  - destruct it; try discriminate; try reflexivity.
    exfalso. eapply Hnm. reflexivity.
Qed.

(** ** Validating a record again *)

Lemma validate_step_accept i l st st' :
  validate_step i l st = Ret st' ->
  (forall l', l' <> l -> st_heap st' !! l' = st_heap st !! l') /\
  ((st_valids st' = st_valids st ++ [l] /\
    missing_fields (deref (st_heap st) l) = Ret [] /\
    coerced (deref (st_heap st) l) (deref (st_heap st') l)) \/
   (st_valids st' = st_valids st /\
    (st_heap st' = st_heap st \/
     lat_coerced (deref (st_heap st) l) (deref (st_heap st') l)))).
Proof.
  unfold validate_step. intros H.
  destruct (missing_fields (deref (st_heap st) l)) as [ms|e] eqn:Hm;
    simpl in H; [|discriminate].
  destruct ms as [|f ms].
  - destruct (coerce_coordinates (st_heap st) l) as [h1 out] eqn:Hc.
    apply coerce_coordinates_spec in Hc. destruct Hc as [Hfr Hc].
    destruct out as [[]|e]; inversion H; subst; simpl; split; auto.
  - inversion H; subst; simpl. split; auto.
Qed.

Lemma validate_step_passed i l st st' :
  validate_step i l st = Ret st' -> valids_passed st -> valids_passed st'.
Proof.
  intros H Hinv. apply validate_step_accept in H. destruct H as [Hfr Hcase].
  intros l' Hl'. destruct (decide (l' = l)) as [->|Hne].
  - destruct Hcase as [(Hv & Hm & Hc)|[Hv [Hh|Hc]]].
    + eauto.
    + rewrite Hh. apply Hinv. rewrite <- Hv. exact Hl'.
    + rewrite Hv in Hl'. destruct (Hinv l Hl') as (r & Hr & Hco).
      exists r. split; [exact Hr|].
      rewrite (coerced_lat_again _ _ _ Hco Hc). exact Hco.
  - rewrite (deref_ext _ _ _ (Hfr l' Hne)). apply Hinv.
    destruct Hcase as [(Hv & _)|[Hv _]]; rewrite Hv in Hl'; [|exact Hl'].
    apply elem_of_app in Hl'. destruct Hl' as [Hl'|Hl']; [exact Hl'|].
    apply list_elem_of_singleton in Hl'. contradiction.
Qed.

Lemma validate_loop_passed recs : forall i st st',
  validate_loop i recs st = Ret st' -> valids_passed st -> valids_passed st'.
Proof.
  induction recs as [|l rest IH]; intros i st st' H Hinv; simpl in H.
  - inversion H; subst. exact Hinv.
  - bind_inv H. eapply IH; [exact H|]. eapply validate_step_passed; eassumption.
Qed.

Lemma missing_loop_each r fields : forall acc ms,
  missing_loop r fields acc = Ret ms ->
  forall f, f ∈ fields -> exists b, field_missing r f = Ret b.
Proof.
  induction fields as [|g rest IH]; intros acc ms H f Hf; simpl in H.
  - apply elem_of_nil in Hf. contradiction.
  - bind_inv H. apply elem_of_cons in Hf. destruct Hf as [->|Hf]; [eauto|].
    eapply IH; eassumption.
Qed.

Lemma missing_fields_nil r :
  missing_fields r = Ret [] ->
  (forall f, f ∈ REQUIRED -> field_missing r f = Ret false) /\
  negb (has_key r "adress") && negb (has_key r "address") = false.
Proof.
  unfold missing_fields. intros H. bind_inv H.
  change (REQUIRED_FOR_MARKER ++ REQUIRED_FOR_CARD) with REQUIRED in Ha.
  destruct (negb (has_key r "adress") && negb (has_key r "address")) eqn:Haddr.
  { inversion H as [Hnil]. destruct a; discriminate. }
  inversion H; subst a. split; [|reflexivity].
  intros f Hf. destruct (missing_loop_each _ _ _ _ Ha f Hf) as [[] Hb];
    [|exact Hb].
  apply missing_loop_grows in Ha. destruct Ha as (_ & _ & Hmem).
  specialize (Hmem f Hf Hb). apply elem_of_nil in Hmem. contradiction.
Qed.

Lemma field_missing_ext r r' f :
  r' !! f = r !! f -> field_missing r' f = field_missing r f.
Proof.
  intros H. unfold field_missing, dict_get. rewrite !has_key_lookup, H.
  reflexivity.
Qed.

Lemma field_missing_float r f x :
  r !! f = Some (VFloat x) -> field_missing r f = Ret (is_nan x).
Proof.
  intros H. unfold field_missing, dict_get. rewrite has_key_lookup, H.
  reflexivity.
Qed.

Lemma missing_fields_coerced r lat lon :
  missing_fields r = Ret [] ->
  missing_fields (<["longitude" := VFloat lon]> (<["latitude" := VFloat lat]> r))
  = Ret (nan_names lat lon).
Proof.
  intros H. apply missing_fields_nil in H. destruct H as [Hreq Haddr].
  set (r' := <["longitude" := VFloat lon]> (<["latitude" := VFloat lat]> r)).
  assert (Hother : forall f, f ∈ REQUIRED -> f <> "latitude" ->
            f <> "longitude" -> field_missing r' f = Ret false).
  { intros f Hf H1 H2. rewrite <- (Hreq f Hf). apply field_missing_ext.
    unfold r'. rewrite !lookup_insert_ne by congruence. reflexivity. }
  assert (Hlat : field_missing r' "latitude" = Ret (is_nan lat)).
  { apply field_missing_float. unfold r'.
    rewrite lookup_insert_ne, lookup_insert_eq by discriminate. reflexivity. }
  assert (Hlon : field_missing r' "longitude" = Ret (is_nan lon)).
  { apply field_missing_float. unfold r'. apply lookup_insert_eq. }
  assert (Hk : forall k, k <> "latitude" -> k <> "longitude" ->
            has_key r' k = has_key r k).
  { intros k H1 H2. rewrite !has_key_lookup. unfold r'.
    rewrite !lookup_insert_ne by congruence. reflexivity. }
  unfold missing_fields, REQUIRED_FOR_MARKER, REQUIRED_FOR_CARD.
  cbn [app missing_loop]. rewrite Hlat, Hlon.
  rewrite !Hother by
    (first [discriminate
           | apply list_elem_of_In; unfold REQUIRED; simpl; tauto]).
  rewrite !Hk by discriminate. rewrite Haddr. unfold nan_names.
  destruct (is_nan lat), (is_nan lon); reflexivity.
Qed.

Lemma setitem_same h l k v :
  is_Some (h !! l) -> deref h l !! k = Some v -> setitem h l k v = h.
Proof.
  intros [r Hr] Hk. unfold setitem. unfold deref in *. rewrite Hr in *.
  simpl in *. rewrite (insert_id r k v Hk). apply insert_id, Hr.
Qed.

Lemma coerce_coordinates_floats h l lat lon :
  deref h l !! "latitude" = Some (VFloat lat) ->
  deref h l !! "longitude" = Some (VFloat lon) ->
  coerce_coordinates h l = (h, Ret tt).
Proof.
  intros Hlat Hlon.
  assert (Hsome : is_Some (h !! l)).
  { unfold deref in Hlat. destruct (h !! l); [eauto|]. simpl in Hlat.
    rewrite lookup_empty in Hlat. discriminate. }
  unfold coerce_coordinates, getitem. rewrite Hlat. simpl.
  rewrite (setitem_same h l "latitude" (VFloat lat) Hsome Hlat).
  rewrite Hlon. simpl.
  rewrite (setitem_same h l "longitude" (VFloat lon) Hsome Hlon). reflexivity.
Qed.

(** X3. Validating an accepted record once more, on the heap the validator
    left, changes nothing in the heap; the record is accepted again when
    neither coordinate is NaN, and is otherwise reported as lacking the NaN
    coordinates (a string such as ["nan"] passes the NA test, and the float
    written back in its place does not). *)
Theorem validate_step_again h recs valids errors h' :
  validate_records h recs = Ret (valids, errors, h') ->
  forall l, l ∈ valids ->
    exists lat lon,
      deref h' l !! "latitude" = Some (VFloat lat) /\
      deref h' l !! "longitude" = Some (VFloat lon) /\
      forall i errs vs,
        validate_step i l (VState h' errs vs) =
          Ret (match nan_names lat lon with
               | [] => VState h' errs (vs ++ [l])
               | names => VState h' (errs ++ [missing_message i names]) vs
               end).
Proof.
  unfold validate_records. intros H l Hl. bind_inv H. inversion H; subst.
  apply validate_loop_passed in Ha.
  2:{ intros l' Hl'. simpl in Hl'. apply elem_of_nil in Hl'. contradiction. }
  destruct (Ha l Hl) as (r & Hr & Hco).
  pose proof Hco as (vlat & lat & vlon & lon & _ & _ & _ & _ & Heq).
  destruct (coerced_lookup _ _ Hco)
    as (_ & lat' & _ & lon' & _ & _ & _ & _ & Hlat & Hlon).
  assert (lat' = lat /\ lon' = lon) as [-> ->].
  { rewrite Heq in Hlat, Hlon.
    rewrite lookup_insert_ne, lookup_insert_eq in Hlat by discriminate.
    rewrite lookup_insert_eq in Hlon. inversion Hlat; inversion Hlon. auto. }
  exists lat, lon. split; [exact Hlat|]. split; [exact Hlon|].
  intros i errs vs. unfold validate_step. cbn [st_heap st_errors st_valids].
  rewrite Heq at 1. rewrite (missing_fields_coerced r lat lon Hr).
  cbn [bind]. destruct (nan_names lat lon); [|reflexivity].
  rewrite (coerce_coordinates_floats _ _ _ _ Hlat Hlon). reflexivity.
Qed.

(** ** Keys the script does not know *)

Lemma missing_loop_ext r r' fields : forall acc,
  (forall f, f ∈ fields -> r' !! f = r !! f) ->
  missing_loop r' fields acc = missing_loop r fields acc.
Proof.
  induction fields as [|f rest IH]; intros acc H; simpl; [reflexivity|].
  rewrite (field_missing_ext r r' f) by (apply H; left).
  destruct (field_missing r f) as [b|e]; simpl; [|reflexivity].
  apply IH. intros g Hg. apply H. right. exact Hg.
Qed.

(** X14. A key the script does not know is ignored: adding it to a record,
    with any value, changes neither the missing names the validator
    computes, nor the coordinates it reads, nor the popup, nor the value the
    icon is built from. *)
Theorem unknown_key_ignored str_compound r k v :
  k ∉ KNOWN_KEYS ->
  missing_fields (<[k := v]> r) = missing_fields r /\
  <[k := v]> r !! "latitude" = r !! "latitude" /\
  <[k := v]> r !! "longitude" = r !! "longitude" /\
  build_popup_html str_compound (<[k := v]> r) = build_popup_html str_compound r /\
  dict_get (<[k := v]> r) "icon_image_url" VNone
    = dict_get r "icon_image_url" VNone.
Proof.
  intros Hk.
  assert (Hne : forall f, f ∈ KNOWN_KEYS -> <[k := v]> r !! f = r !! f).
  { intros f Hf. apply lookup_insert_ne. intros ->. contradiction. }
  assert (Hknown : forall f, In f KNOWN_KEYS -> <[k := v]> r !! f = r !! f).
  { intros f Hf. apply Hne, list_elem_of_In, Hf. }
  split; [|split; [|split; [|split]]].
  - unfold missing_fields. rewrite !has_key_lookup.
    rewrite (missing_loop_ext r (<[k := v]> r)).
    + rewrite !Hknown by (vm_compute; tauto). reflexivity.
    + intros f Hf. apply Hne. unfold KNOWN_KEYS. apply elem_of_app. left.
      exact Hf.
  - apply Hknown. vm_compute. tauto.
  - apply Hknown. vm_compute. tauto.
  - unfold build_popup_html, dict_get.
    rewrite !Hknown by (vm_compute; tauto). reflexivity.
  - unfold dict_get. rewrite Hknown by (vm_compute; tauto). reflexivity.
Qed.

Lemma unknown_key_ignored_witness :
  build_popup_html (fun _ => EmptyString)
    (<["phone" := VInt 351]> Samples.lisbon)
  = build_popup_html (fun _ => EmptyString) Samples.lisbon.
Proof.
  apply (unknown_key_ignored (fun _ => EmptyString) Samples.lisbon "phone"
           (VInt 351)).
  intros H. apply list_elem_of_In in H. vm_compute in H.
  repeat (destruct H as [H|H]; [discriminate|]). contradiction.
Defined.

(** ** The script on a list of mappings *)

Lemma validate_items_loop_mappings recs : forall i st,
  validate_items_loop i (IMapping <$> recs) st = lift (validate_loop i recs st).
Proof.
  induction recs as [|l rest IH]; intros i st; simpl; [reflexivity|].
  destruct (validate_step i l st) as [st1|e]; simpl; [apply IH | reflexivity].
Qed.

Lemma validate_items_mappings h recs :
  validate_items h (IMapping <$> recs) = lift (validate_records h recs).
Proof.
  unfold validate_items, validate_records.
  rewrite validate_items_loop_mappings.
  destruct (validate_loop 1 recs (VState h [] [])); reflexivity.
Qed.

(** X15. On a list of mappings none of whose required fields holds a value
    on which the NA test raises, validation returns and the script ends in
    one of three ways: the no-valid-offices page; a map with at least one
    marker, at the chosen zoom and tiles, when folium accepts the centre,
    the tile name and the coordinates; the [ValueError] of folium
    otherwise. *)
Theorem main_on_mappings str_compound tiles_resolved compensated h recs tile
  zoom size :
  (forall l, l ∈ recs -> na_decidable (deref h l)) ->
  exists valids errs h',
    validate_records h recs = Ret (valids, errs, h') /\
    ((valids = [] /\
      main str_compound tiles_resolved compensated
        (Done (DocList h (IMapping <$> recs))) tile zoom size
        = Done (NoOfficesPage errs)) \/
     (valids <> [] /\
      exists center,
        compute_map_center compensated h' valids = Ret center /\
        if folium_accepts tiles_resolved center tile h' valids
        then exists m,
               main str_compound tiles_resolved compensated
                 (Done (DocList h (IMapping <$> recs))) tile zoom size
                 = Done (MapPage errs m) /\
               map_markers m <> [] /\ map_zoom_start m = zoom /\
               map_tiles m = tile
        else main str_compound tiles_resolved compensated
               (Done (DocList h (IMapping <$> recs))) tile zoom size
             = Failed (Builtin ValueError))).
Proof.
  intros Hna.
  destruct (validate_loop_returns h recs 1 (VState h [] [])) as [st Hst].
  { intros l Hl. apply na_decidable_spec, Hna, Hl. }
  { intros l. left. reflexivity. }
  assert (Hr : validate_records h recs
               = Ret (st_valids st, st_errors st, st_heap st)).
  { unfold validate_records. rewrite Hst. reflexivity. }
  assert (Hv : validate_items h (IMapping <$> recs)
               = Done (st_valids st, st_errors st, st_heap st)).
  { rewrite validate_items_mappings, Hr. reflexivity. }
  exists (st_valids st), (st_errors st), (st_heap st). split; [exact Hr|].
  destruct (main_after_validate_items str_compound tiles_resolved compensated
              _ _ _ _ _ tile zoom size Hv)
    as [(He & Hm & _)|(Hne & c & Hc & Hm)].
  - left. auto.
  - right. split; [exact Hne|]. exists c. split; [exact Hc|].
    destruct (folium_accepts tiles_resolved c tile (st_heap st) (st_valids st));
      [|exact Hm].
    destruct Hm as (mks & Hm & Hlen & _). eexists. split; [exact Hm|].
    simpl. repeat split. intros ->. simpl in Hlen.
    destruct (st_valids st); [congruence | discriminate].
Qed.

(** ** The further properties at work on sample data *)

Lemma main_pages_witness :
  main (fun _ => EmptyString) (fun _ => true) true
    (Done (DocList ∅ [IStr "Lisboa"])) "CartoDB positron" 3 44
  = Done (NoOfficesPage
            ["Item 1: faltando campos latitude, longitude, city, nome, region, CapcoHub, contact, adress/address"]) /\
  length
    ["Item 1: faltando campos latitude, longitude, city, nome, region, CapcoHub, contact, adress/address"]
  = length [IStr "Lisboa"].
Proof.
  apply (proj1 (main_pages (fun _ => EmptyString) (fun _ => true) true ∅
                  [IStr "Lisboa"] []
                  ["Item 1: faltando campos latitude, longitude, city, nome, region, CapcoHub, contact, adress/address"]
                  ∅ "CartoDB positron" 3 44
                  ltac:(vm_compute; reflexivity))).
  reflexivity.
Defined.

Lemma main_failures_witness :
  exists h items,
    Done (DocList (Samples.heap_of [Samples.nan_latitude]) [IMapping 0%nat])
      = Done (DocList h items) /\
    (validate_items h items = Failed (Builtin ValueError) \/
     Builtin ValueError = Builtin ValueError /\
     exists valids errs h' center,
       validate_items h items = Done (valids, errs, h') /\
       valids <> [] /\
       compute_map_center true h' valids = Ret center /\
       folium_accepts (fun _ => true) center "OpenStreetMap" h' valids = false).
Proof.
  apply (proj2 (proj2 (main_failures (fun _ => EmptyString) (fun _ => true)
                         true
                         (Done (DocList (Samples.heap_of [Samples.nan_latitude])
                                  [IMapping 0%nat]))
                         "OpenStreetMap" 3 44))).
  vm_compute. reflexivity.
Defined.

Lemma validate_item_not_mapping_witness :
  validate_item 1 (IStr "Lisboa") (VState ∅ [] [])
  = Done (VState ∅
            ["Item 1: faltando campos latitude, longitude, city, nome, region, CapcoHub, contact, adress/address"]
            []).
Proof.
  exact (validate_item_not_mapping 1 (IStr "Lisboa") (VState ∅ [] [])
           ltac:(intros l; discriminate)).
Defined.

Lemma validate_step_again_witness :
  exists lat lon,
    deref (Samples.heap_after (Samples.heap_of [Samples.lisbon]) [0%nat]) 0%nat
      !! "latitude" = Some (VFloat lat) /\
    deref (Samples.heap_after (Samples.heap_of [Samples.lisbon]) [0%nat]) 0%nat
      !! "longitude" = Some (VFloat lon) /\
    forall i errs vs,
      validate_step i 0%nat
        (VState (Samples.heap_after (Samples.heap_of [Samples.lisbon]) [0%nat])
           errs vs) =
        Ret (match nan_names lat lon with
             | [] =>
                 VState (Samples.heap_after (Samples.heap_of [Samples.lisbon])
                           [0%nat]) errs (vs ++ [0%nat])
             | names =>
                 VState (Samples.heap_after (Samples.heap_of [Samples.lisbon])
                           [0%nat])
                   (errs ++ [missing_message i names]) vs
             end).
Proof.
  apply (validate_step_again (Samples.heap_of [Samples.lisbon]) [0%nat]
           [0%nat] []).
  - vm_compute. reflexivity.
  - apply list_elem_of_here.
Defined.

Lemma main_on_mappings_witness :
  exists valids errs h',
    validate_records (Samples.heap_of [Samples.lisbon; Samples.no_contact])
      [0; 1]%nat = Ret (valids, errs, h') /\
    ((valids = [] /\
      main (fun _ => EmptyString) (fun _ => true) true
        (Done (DocList (Samples.heap_of [Samples.lisbon; Samples.no_contact])
                 (IMapping <$> [0; 1]%nat)))
        "CartoDB positron" 3 44 = Done (NoOfficesPage errs)) \/
     (valids <> [] /\
      exists center,
        compute_map_center true h' valids = Ret center /\
        if folium_accepts (fun _ => true) center "CartoDB positron" h' valids
        then exists m,
               main (fun _ => EmptyString) (fun _ => true) true
                 (Done (DocList
                          (Samples.heap_of [Samples.lisbon; Samples.no_contact])
                          (IMapping <$> [0; 1]%nat)))
                 "CartoDB positron" 3 44 = Done (MapPage errs m) /\
               map_markers m <> [] /\ map_zoom_start m = 3 /\
               map_tiles m = "CartoDB positron"
        else main (fun _ => EmptyString) (fun _ => true) true
               (Done (DocList
                        (Samples.heap_of [Samples.lisbon; Samples.no_contact])
                        (IMapping <$> [0; 1]%nat)))
               "CartoDB positron" 3 44 = Failed (Builtin ValueError))).
Proof.
  apply (main_on_mappings (fun _ => EmptyString) (fun _ => true) true
           (Samples.heap_of [Samples.lisbon; Samples.no_contact]) [0; 1]%nat).
  intros l Hl. apply elem_of_cons in Hl.
  destruct Hl as [->|Hl]; [vm_compute; reflexivity|].
  apply list_elem_of_singleton in Hl. subst l. vm_compute. reflexivity.
Defined.
